(** * Currency converter (app.py): parser, rate access layer and cache

    A shallow embedding of the decision logic of [app.py]:
    the natural-language parser [parse_nl_input] with its regular
    expression and [word_to_currency_code], the four provider calls
    ([fetch_symbols], [fetch_latest], [fetch_timeseries],
    [convert_currency]), the range clamp inside [fetch_timeseries], the
    [st.cache_data] memoisation and the "Refresh rates now" handler. *)

From Stdlib Require Import ZArith NArith QArith Lia Bool Ascii String.
From Stdlib Require Import List Permutation Sorted.
Import ListNotations.

Set Implicit Arguments.

Local Open Scope string_scope.
Local Open Scope list_scope.
Local Open Scope N_scope.

(** ** Python values: exceptions, results, strings *)

(** The exception classes the modelled code can raise.  [HTTPError] comes
    from [raise_for_status], [ConnectionError] and [Timeout] from
    [requests.get], [JSONDecodeError] from [res.json()], [AttributeError]
    from calling [.get] on a JSON value that is not an object, and
    [ValueError] from [parse_nl_input], [float] and
    [datetime.fromisoformat]. *)
Inductive exn : Type :=
| ValueError (msg : string)
| ConnectionError
| Timeout
| HTTPError (status : Z)
| JSONDecodeError
| AttributeError.

(** The Python class name of an exception. *)
Definition exn_class (e : exn) : string :=
  match e with
  | ValueError _ => "ValueError"
  | ConnectionError => "ConnectionError"
  | Timeout => "Timeout"
  | HTTPError _ => "HTTPError"
  | JSONDecodeError => "JSONDecodeError"
  | AttributeError => "AttributeError"
  end.

Inductive result (A : Type) : Type :=
| Ok (a : A)
| Raise (e : exn).
Arguments Ok {A} a.
Arguments Raise {A} e.

(** A Python [str] is a sequence of Unicode code points. *)
Definition char := N.
Definition str := list char.

(** ASCII literals of the source, as code points. *)
Fixpoint lit (s : string) : str :=
  match s with
  | EmptyString => []
  | String a s' => N_of_ascii a :: lit s'
  end.

Fixpoint str_eqb (a b : str) : bool :=
  match a, b with
  | [], [] => true
  | x :: a', y :: b' => N.eqb x y && str_eqb a' b'
  | _, _ => false
  end.

(** ** Character classes *)

Definition in_range (lo hi x : char) : bool := (N.leb lo x && N.leb x hi)%bool.

(** [str.isspace] on one code point, which is also what [\s] matches in a
    [str] pattern: U+0009..U+000D, U+001C..U+0020, U+0085, U+00A0, U+1680,
    U+2000..U+200A, U+2028, U+2029, U+202F, U+205F, U+3000. *)
Definition isspace (x : char) : bool :=
  (in_range 9 13 x || in_range 28 32 x || N.eqb x 133 || N.eqb x 160
   || N.eqb x 5760 || in_range 8192 8202 x || N.eqb x 8232 || N.eqb x 8233
   || N.eqb x 8239 || N.eqb x 8287 || N.eqb x 12288)%bool.

(** [[0-9]] *)
Definition is_digit (x : char) : bool := in_range 48 57 x.

(** [[A-Z]], without any flag (the class of [re.sub] in
    [word_to_currency_code]). *)
Definition is_AZ (x : char) : bool := in_range 65 90 x.

Definition is_az (x : char) : bool := in_range 97 122 x.

(** U+0130 (capital I with dot above), U+0131 (dotless i), U+017F (long s)
    and U+212A (Kelvin sign). *)
Definition I_DOT : char := 304.
Definition DOTLESS_I : char := 305.
Definition LONG_S : char := 383.
Definition KELVIN : char := 8490.

(** [[A-Za-z]] under [re.IGNORECASE] in a [str] pattern: the 52 ASCII
    letters and the four code points whose case folding meets them. *)
Definition is_letter_ic (x : char) : bool :=
  (is_AZ x || is_az x || N.eqb x I_DOT || N.eqb x DOTLESS_I
   || N.eqb x LONG_S || N.eqb x KELVIN)%bool.

(** A literal ASCII lower-case letter [l] of the pattern under
    [re.IGNORECASE]: [l], its capital, and for [i] also U+0130 and U+0131. *)
Definition is_lit_ic (l : char) (x : char) : bool :=
  (N.eqb x l || N.eqb x (l - 32)
   || (N.eqb l 105 && (N.eqb x I_DOT || N.eqb x DOTLESS_I)))%bool.

(** [str.upper] on one code point of the class [is_letter_ic], the only
    characters a captured token holds: ASCII lower case goes to upper case,
    U+0131 to [I], U+017F to [S]; capitals, U+0130 and U+212A are their own
    upper case.  Other code points are left alone here; the parser never
    applies [upper] to them. *)
Definition upper_char (x : char) : char :=
  if is_az x then x - 32
  else if N.eqb x DOTLESS_I then 73
  else if N.eqb x LONG_S then 83
  else x.

Definition upper (s : str) : str := map upper_char s.

(** [str.strip()] *)
Fixpoint lstrip (s : str) : str :=
  match s with
  | x :: s' => if isspace x then lstrip s' else s
  | [] => []
  end.

Definition rstrip (s : str) : str := rev (lstrip (rev s)).

Definition strip (s : str) : str := rstrip (lstrip s).

(** ** A backtracking matcher for the fragment of [re] the source uses *)

Inductive regex : Type :=
| Cls (p : char -> bool)          (* one character of a class, or a literal *)
| Eps                             (* the empty pattern *)
| Seq (r1 r2 : regex)             (* r1 r2 *)
| Alt (r1 r2 : regex)             (* r1|r2, r1 tried first *)
| Star (r : regex)                (* r*, greedy *)
| Group (i : nat) (r : regex).    (* capturing group number i *)

(** r+ , r? and r{3,} as the [re] compiler reads them. *)
Definition Plus (r : regex) : regex := Seq r (Star r).
Definition Opt (r : regex) : regex := Alt r Eps.
Definition AtLeast3 (r : regex) : regex := Seq r (Seq r (Seq r (Star r))).

(** Captured groups, most recent first. *)
Definition caps := list (nat * str).

Fixpoint group (i : nat) (c : caps) : option str :=
  match c with
  | [] => None
  | (j, w) :: c' => if Nat.eqb i j then Some w else group i c'
  end.

(** The loop of a greedy repetition: try one more iteration of [step], and
    fall back to the continuation when no longer run leads to a match.  An
    iteration that consumed nothing is not repeated. *)
Fixpoint star_loop (step : str -> caps -> (str -> caps -> option caps) -> option caps)
         (k : str -> caps -> option caps)
         (fuel : nat) (s : str) (c : caps) {struct fuel} : option caps :=
  match fuel with
  | O => k s c
  | S fuel' =>
      match step s c (fun s1 c1 =>
                        if Nat.ltb (length s1) (length s)
                        then star_loop step k fuel' s1 c1 else None) with
      | Some m => Some m
      | None => k s c
      end
  end.

(** [rmatch r s c k] matches [r] at the head of [s] and hands the rest of
    the input to [k]; alternatives are tried in the order of the backtracking
    engine (left branch first, longest repetition first). *)
Fixpoint rmatch (r : regex) (s : str) (c : caps)
         (k : str -> caps -> option caps) {struct r} : option caps :=
  match r with
  | Cls p =>
      match s with
      | x :: s' => if p x then k s' c else None
      | [] => None
      end
  | Eps => k s c
  | Seq r1 r2 => rmatch r1 s c (fun s1 c1 => rmatch r2 s1 c1 k)
  | Alt r1 r2 =>
      match rmatch r1 s c k with
      | Some m => Some m
      | None => rmatch r2 s c k
      end
  | Star r1 => star_loop (rmatch r1) k (length s) s c
  | Group i r1 =>
      rmatch r1 s c
        (fun s1 c1 => k s1 ((i, firstn (length s - length s1)%nat s) :: c1))
  end.

(** [re.search]: the leftmost start position at which the pattern matches. *)
Fixpoint search (r : regex) (s : str) : option caps :=
  match rmatch r s [] (fun _ c => Some c) with
  | Some c => Some c
  | None =>
      match s with
      | [] => None
      | _ :: s' => search r s'
      end
  end.

(** ** The parser *)

Definition DIGIT : regex := Cls is_digit.
Definition LETTER : regex := Cls is_letter_ic.
Definition SPACES : regex := Star (Cls isspace).
Definition DOT : regex := Cls (N.eqb 46).

(** [(?:to|in)] under [re.IGNORECASE] *)
Definition TO_IN : regex :=
  Alt (Seq (Cls (is_lit_ic 116)) (Cls (is_lit_ic 111)))
      (Seq (Cls (is_lit_ic 105)) (Cls (is_lit_ic 110))).

(** [([0-9]+(?:\.[0-9]+)?)] *)
Definition NUMBER : regex := Seq (Plus DIGIT) (Opt (Seq DOT (Plus DIGIT))).

(** The pattern of [parse_nl_input], compiled with [re.IGNORECASE]:
    [([0-9]+(?:\.[0-9]+)?)\s*([A-Za-z]{3,}|[A-Za-z]{3})\s*(?:to|in)\s*([A-Za-z]{3,})] *)
Definition PATTERN : regex :=
  Seq (Group 1 NUMBER)
 (Seq SPACES
 (Seq (Group 2 (Alt (AtLeast3 LETTER) (Seq LETTER (Seq LETTER LETTER))))
 (Seq SPACES
 (Seq TO_IN
 (Seq SPACES
      (Group 3 (AtLeast3 LETTER))))))).

(** [COMMON_CURY] *)
Definition COMMON_CURY : list (str * str) :=
  [ (lit "DOLLAR", lit "USD"); (lit "DOLLARS", lit "USD"); (lit "USD", lit "USD");
    (lit "EURO", lit "EUR"); (lit "EUROS", lit "EUR"); (lit "EUR", lit "EUR");
    (lit "POUND", lit "GBP"); (lit "POUNDS", lit "GBP");
    (lit "STERLING", lit "GBP"); (lit "GBP", lit "GBP");
    (lit "RUPEE", lit "PKR"); (lit "PKR", lit "PKR"); (lit "INR", lit "INR");
    (lit "YEN", lit "JPY"); (lit "JPY", lit "JPY");
    (lit "YUAN", lit "CNY"); (lit "RENMINBI", lit "CNY"); (lit "CNY", lit "CNY");
    (lit "SWISS", lit "CHF"); (lit "FRANC", lit "CHF"); (lit "CHF", lit "CHF");
    (lit "AUD", lit "AUD"); (lit "CAD", lit "CAD"); (lit "NZD", lit "NZD");
    (lit "SEK", lit "SEK") ].

Fixpoint dict_get (A : Type) (k : str) (d : list (str * A)) : option A :=
  match d with
  | [] => None
  | (k', v) :: d' => if str_eqb k k' then Some v else dict_get k d'
  end.

(** [word_to_currency_code]; [None] is Python's [None]. *)
Definition word_to_currency_code (token : str) : option str :=
  let tok := upper token in
  let tok := filter is_AZ tok in           (* re.sub(r"[^A-Z]", "", tok) *)
  match dict_get tok COMMON_CURY with
  | Some code => Some code
  | None => if Nat.eqb (length tok) 3%nat then Some tok else None
  end.

(** The value of a run of decimal digits. *)
Definition digits_value (ds : str) : Z :=
  fold_left (fun acc d => 10 * acc + (Z.of_N d - 48))%Z ds 0%Z.

Fixpoint split_dot (s : str) : str * option str :=
  match s with
  | [] => ([], None)
  | x :: s' =>
      if N.eqb x 46 then ([], Some s')
      else let (a, b) := split_dot s' in (x :: a, b)
  end.

Definition all_digits (s : str) : bool :=
  (negb (Nat.eqb (length s) 0%nat) && forallb is_digit s)%bool.

(** The real number a decimal literal [digits] or [digits.digits] denotes. *)
Definition decimal_value (s : str) : option Q :=
  match split_dot s with
  | (ip, None) =>
      if all_digits ip then Some (digits_value ip # 1)%Q else None
  | (ip, Some fp) =>
      if (all_digits ip && all_digits fp)%bool
      then Some (digits_value (ip ++ fp) # Pos.pow 10 (Pos.of_nat (length fp)))%Q
      else None
  end.

(** [float(s)] on the literals [[+-]digits[.digits]]: the amount is kept as
    the exact rational the literal denotes, which [float] then rounds to
    the nearest double (integers below 2^53, such as 500, are exact).
    Any other text is rejected here with [float]'s [ValueError]. *)
Definition float (s : str) : result Q :=
  let bad := Raise (ValueError "could not convert string to float") in
  let plain := match decimal_value s with Some q => Ok q | None => bad end in
  match s with
  | x :: s' =>
      if N.eqb x 45 then                              (* - *)
        match decimal_value s' with Some q => Ok (- q)%Q | None => bad end
      else if N.eqb x 43 then                         (* + *)
        match decimal_value s' with Some q => Ok q | None => bad end
      else plain
  | [] => plain
  end.

Definition PARSE_MSG : string :=
  "Could not parse natural language input. Try format: 'convert 500 USD to PKR'".

(** [m.group(i)] of a successful match of [PATTERN]; every group of the
    pattern takes part in every match. *)
Definition mgroup (i : nat) (m : caps) : str :=
  match group i m with Some w => w | None => [] end.

(** [parse_nl_input] *)
Definition parse_nl_input (text : str) : result (Q * str * str) :=
  let text := strip text in
  match search PATTERN text with
  | Some m =>
      match float (mgroup 1 m) with
      | Raise e => Raise e
      | Ok amt =>
          let a := upper (mgroup 2 m) in
          let b := upper (mgroup 3 m) in
          let a_code := word_to_currency_code a in
          let b_code := word_to_currency_code b in
          match a_code, b_code with
          | Some ac, Some bc => Ok (amt, ac, bc)
          | _, _ =>
              if (Nat.eqb (length a) 3%nat && Nat.eqb (length b) 3%nat)%bool
              then Ok (amt, a, b)
              else Raise (ValueError PARSE_MSG)
          end
      end
  | None => Raise (ValueError PARSE_MSG)
  end.

(** The parser with the trailing three-letter fallback removed: the variant
    [parse_nl_input] is compared with. *)
Definition parse_nl_input_no_fallback (text : str) : result (Q * str * str) :=
  let text := strip text in
  match search PATTERN text with
  | Some m =>
      match float (mgroup 1 m) with
      | Raise e => Raise e
      | Ok amt =>
          let a := upper (mgroup 2 m) in
          let b := upper (mgroup 3 m) in
          match word_to_currency_code a, word_to_currency_code b with
          | Some ac, Some bc => Ok (amt, ac, bc)
          | _, _ => Raise (ValueError PARSE_MSG)
          end
      end
  | None => Raise (ValueError PARSE_MSG)
  end.

(** What [parse_nl_input] does with the groups of a match: the part of the
    function below [if m:]. *)
Definition resolve (num ta tb : str) : result (Q * str * str) :=
  match float num with
  | Raise e => Raise e
  | Ok amt =>
      let a := upper ta in
      let b := upper tb in
      match word_to_currency_code a, word_to_currency_code b with
      | Some ac, Some bc => Ok (amt, ac, bc)
      | _, _ =>
          if (Nat.eqb (length a) 3 && Nat.eqb (length b) 3)%bool
          then Ok (amt, a, b)
          else Raise (ValueError PARSE_MSG)
      end
  end.

(** ** Calendar dates *)

Local Open Scope Z_scope.

(** A [datetime] at midnight is kept as its proleptic Gregorian ordinal
    ([toordinal()]: 0001-01-01 is day 1), so that [(ed - sd).days] is a
    difference of ordinals and [ed - timedelta(days=n)] a subtraction. *)
Definition date := Z.

Definition MAX_HISTORY_DAYS : Z := 365.

Definition is_leap (y : Z) : bool :=
  (y mod 4 =? 0) && (negb (y mod 100 =? 0) || (y mod 400 =? 0)).

Definition days_before_year (y : Z) : Z :=
  let y := y - 1 in y * 365 + y / 4 - y / 100 + y / 400.

Definition days_in_month (y m : Z) : Z :=
  if m =? 2 then (if is_leap y then 29 else 28)
  else if (m =? 4) || (m =? 6) || (m =? 9) || (m =? 11) then 30
  else 31.

(** [_DAYS_BEFORE_MONTH], with index 0 and 13 outside the months. *)
Definition DAYS_BEFORE_MONTH (m : Z) : Z :=
  match m with
  | 1 => 0 | 2 => 31 | 3 => 59 | 4 => 90 | 5 => 120 | 6 => 151
  | 7 => 181 | 8 => 212 | 9 => 243 | 10 => 273 | 11 => 304 | 12 => 334
  | _ => 0
  end.

Definition days_before_month (y m : Z) : Z :=
  DAYS_BEFORE_MONTH m + (if (2 <? m) && is_leap y then 1 else 0).

Definition ymd2ord (y m d : Z) : date :=
  days_before_year y + days_before_month y m + d.

(** The end of [_ord2ymd]: month and day of the [n]-th day (from 0) of a
    year, from the estimate [(n + 50) >> 5] of the month. *)
Definition month_day (leapyear : bool) (n : Z) : Z * Z :=
  let month := Z.shiftr (n + 50) 5 in
  let preceding :=
    DAYS_BEFORE_MONTH month + (if (2 <? month) && leapyear then 1 else 0) in
  if n <? preceding then
    let month := month - 1 in
    let preceding :=
      preceding - (days_in_month 1 month
                   + (if (month =? 2) && leapyear then 1 else 0)) in
    (month, n - preceding + 1)
  else (month, n - preceding + 1).

(** [_ord2ymd] of the [datetime] module. *)
Definition ord2ymd (n : date) : Z * Z * Z :=
  let n := n - 1 in
  let n400 := n / 146097 in
  let n := n mod 146097 in
  let year := n400 * 400 + 1 in
  let n100 := n / 36524 in
  let n := n mod 36524 in
  let n4 := n / 1461 in
  let n := n mod 1461 in
  let n1 := n / 365 in
  let n := n mod 365 in
  let year := year + n100 * 100 + n4 * 4 + n1 in
  if (n1 =? 4) || (n100 =? 4) then (year - 1, 12, 31)
  else
    let leapyear := (n1 =? 3) && (negb (n4 =? 24) || (n100 =? 3)) in
    let (month, day) := month_day leapyear n in
    (year, month, day).

(** The check that [month_day] is right on one day of a year. *)
Definition month_day_ok (leapyear : bool) (n : Z) : bool :=
  let (m, d) := month_day leapyear n in
  (1 <=? m) && (m <=? 12) && (1 <=? d)
  && (d <=? days_in_month 1 m + (if (m =? 2) && leapyear then 1 else 0))
  && (DAYS_BEFORE_MONTH m + (if (2 <? m) && leapyear then 1 else 0) + d
      =? n + 1).

(** The last ordinal, 9999-12-31. *)
Definition MAX_ORDINAL : Z := 3652059.

Definition digit_of (x : char) : Z := Z.of_N x - 48.

Definition DATE_MSG : string := "Invalid isoformat string".

(** [datetime.fromisoformat] on the [YYYY-MM-DD] strings the docstring of
    [fetch_timeseries] asks for; any other text is rejected here with the
    [ValueError] of [fromisoformat]. *)
Definition fromisoformat (s : str) : result date :=
  match s with
  | [y1; y2; y3; y4; h1; m1; m2; h2; d1; d2] =>
      if (forallb is_digit [y1; y2; y3; y4; m1; m2; d1; d2]
          && N.eqb h1 45 && N.eqb h2 45)%bool
      then
        let y := 1000 * digit_of y1 + 100 * digit_of y2
                 + 10 * digit_of y3 + digit_of y4 in
        let m := 10 * digit_of m1 + digit_of m2 in
        let d := 10 * digit_of d1 + digit_of d2 in
        if (1 <=? y) && (1 <=? m) && (m <=? 12)
           && (1 <=? d) && (d <=? days_in_month y m)
        then Ok (ymd2ord y m d)
        else Raise (ValueError DATE_MSG)
      else Raise (ValueError DATE_MSG)
  | _ => Raise (ValueError DATE_MSG)
  end.

Definition digit_char (d : Z) : char := Z.to_N (d mod 10 + 48).

(** The first ordinal of a year of four digits, 1000-01-01. *)
Definition MIN_4DIGIT_ORDINAL : Z := 364878.

(** What [%Y] writes: the year in decimal with no padding, as the C
    library under the interpreter (glibc) does, so that a year below 1000
    comes out on fewer than four digits. *)
Definition year_text (y : Z) : str :=
  if y <? 10 then [digit_char y]
  else if y <? 100 then [digit_char (y / 10); digit_char y]
  else if y <? 1000 then [digit_char (y / 100); digit_char (y / 10); digit_char y]
  else [digit_char (y / 1000); digit_char (y / 100); digit_char (y / 10);
        digit_char y].

(** The text of [%Y-%m-%d] for a year, a month and a day. *)
Definition date_text (y m d : Z) : str :=
  year_text y
  ++ [45%N; digit_char (m / 10); digit_char m; 45%N;
      digit_char (d / 10); digit_char d].

(** [strftime("%Y-%m-%d")]: "2023-03-02", and "999-06-01" for a day of the
    year 999. *)
Definition strftime (n : date) : str :=
  let '(y, m, d) := ord2ymd n in date_text y m d.

(** ** JSON bodies and the HTTP provider *)

#[warnings="-register-all"]
Inductive json : Type :=
| JNull
| JBool (b : bool)
| JNum (q : Q)
| JStr (s : str)
| JArr (l : list json)
| JObj (o : list (str * json)).   (* a dict in insertion order; keys distinct *)

(** [obj.get(key, default)]; a value that is not a dict has no [get]. *)
Definition json_get (data : json) (key : str) (default : json) : result json :=
  match data with
  | JObj o =>
      match dict_get key o with
      | Some v => Ok v
      | None => Ok default
      end
  | _ => Raise AttributeError
  end.

Inductive pyval : Type :=
| PStr (s : str)
| PFloat (q : Q).

Record request : Type := mkRequest {
  url : string;
  params : list (string * pyval);
  timeout : Z
}.

(** What [requests.get] comes back with: an exception of the transport, or
    a response with its status and its body ([None] when the body is not
    JSON, so that [res.json()] raises). *)
Inductive outcome : Type :=
| NetFail (e : exn)
| Response (status : Z) (body : option json).

(** The provider as the program sees it: the outcomes of the calls still to
    come, and the requests sent so far (oldest first). *)
Record world : Type := mkWorld {
  pending : list outcome;
  sent : list request
}.

Definition API_BASE : string := "https://api.exchangerate.host".

Definition requests_get (r : request) (w : world) : outcome * world :=
  match pending w with
  | o :: rest => (o, mkWorld rest (sent w ++ [r]))
  | [] => (NetFail ConnectionError, mkWorld [] (sent w ++ [r]))
  end.

(** [res.raise_for_status()] raises for 4xx and 5xx. *)
Definition is_error_status (status : Z) : bool :=
  (400 <=? status) && (status <? 600).

(** [requests.get(...)], [raise_for_status()], [res.json()] in a row. *)
Definition get_json (r : request) (w : world) : result json * world :=
  let (o, w') := requests_get r w in
  match o with
  | NetFail e => (Raise e, w')
  | Response status body =>
      if is_error_status status then (Raise (HTTPError status), w')
      else match body with
           | Some j => (Ok j, w')
           | None => (Raise JSONDecodeError, w')
           end
  end.

(** [fetch_symbols] *)
Definition fetch_symbols (w : world) : result json * world :=
  let (res, w') := get_json (mkRequest (API_BASE ++ "/symbols") [] 10) w in
  match res with
  | Raise e => (Raise e, w')
  | Ok data => (json_get data (lit "symbols") (JObj []), w')
  end.

(** [fetch_latest] *)
Definition fetch_latest (base : str) (w : world) : result json * world :=
  let (res, w') :=
    get_json (mkRequest (API_BASE ++ "/latest") [("base", PStr base)] 10) w in
  match res with
  | Raise e => (Raise e, w')
  | Ok data => (json_get data (lit "rates") (JObj []), w')
  end.

(** One row of the returned frame: the date of the row and its rate,
    [None] being Python's [None]. *)
Record point : Type := mkPoint {
  pt_date : date;
  pt_rate : option json
}.

(** Code point order on [str], the order [sorted] uses on the date keys. *)
Fixpoint str_compare (a b : str) : comparison :=
  match a, b with
  | [], [] => Eq
  | [], _ :: _ => Lt
  | _ :: _, [] => Gt
  | x :: a', y :: b' =>
      match N.compare x y with
      | Eq => str_compare a' b'
      | c => c
      end
  end.

Definition str_leb (a b : str) : bool :=
  match str_compare a b with Gt => false | _ => true end.

(** [sorted(d.items())]: the keys of a dict are distinct, so the order of
    the pairs is the order of their keys and no two values are compared. *)
Fixpoint insert_item (A : Type) (x : str * A) (l : list (str * A)) : list (str * A) :=
  match l with
  | [] => [x]
  | y :: l' => if str_leb (fst x) (fst y) then x :: l else y :: insert_item x l'
  end.

Definition sorted_items (A : Type) (l : list (str * A)) : list (str * A) :=
  fold_right (@insert_item A) [] l.

(** The loop of [fetch_timeseries] over the sorted items: one record per
    date, its rate being [rate_obj.get(target)]. *)
Fixpoint build_records (target : str) (items : list (str * json))
  : result (list (str * option json)) :=
  match items with
  | [] => Ok []
  | (d, rate_obj) :: rest =>
      match rate_obj with
      | JObj o =>
          match build_records target rest with
          | Ok recs => Ok ((d, dict_get target o) :: recs)
          | Raise e => Raise e
          end
      | _ => Raise AttributeError
      end
  end.

(** [pd.to_datetime] on the date column, read for the [YYYY-MM-DD] keys of
    the provider; the rows and their order are kept. *)
Fixpoint to_datetime (recs : list (str * option json)) : result (list point) :=
  match recs with
  | [] => Ok []
  | (d, r) :: rest =>
      match fromisoformat d with
      | Raise e => Raise e
      | Ok n =>
          match to_datetime rest with
          | Ok pts => Ok (mkPoint n r :: pts)
          | Raise e => Raise e
          end
      end
  end.

(** [fetch_timeseries]; the frame is the list of its rows in index order. *)
Definition fetch_timeseries (base target start_date end_date : str) (w : world)
  : result (list point) * world :=
  match fromisoformat start_date with
  | Raise e => (Raise e, w)
  | Ok sd =>
  match fromisoformat end_date with
  | Raise e => (Raise e, w)
  | Ok ed =>
      let start_date :=
        if MAX_HISTORY_DAYS <? ed - sd
        then strftime (ed - MAX_HISTORY_DAYS) else start_date in
      let params :=
        [("start_date", PStr start_date); ("end_date", PStr end_date);
         ("base", PStr base); ("symbols", PStr target)] in
      let (res, w') :=
        get_json (mkRequest (API_BASE ++ "/timeseries") params 15) w in
      match res with
      | Raise e => (Raise e, w')
      | Ok j =>
          match json_get j (lit "rates") (JObj []) with
          | Raise e => (Raise e, w')
          | Ok (JObj rates) =>
              match build_records target (sorted_items rates) with
              | Raise e => (Raise e, w')
              | Ok records => (to_datetime records, w')
              end
          | Ok _ => (Raise AttributeError, w')
          end
      end
  end end.

(** [convert_currency]: the result and the whole body. *)
Definition convert_currency (amount : Q) (base target : str) (w : world)
  : result (option json * json) * world :=
  let (res, w') :=
    get_json (mkRequest (API_BASE ++ "/convert")
                [("from", PStr base); ("to", PStr target);
                 ("amount", PFloat amount)] 10) w in
  match res with
  | Raise e => (Raise e, w')
  | Ok j =>
      match j with
      | JObj o => (Ok (dict_get (lit "result") o, j), w')
      | _ => (Raise AttributeError, w')
      end
  end.

(** ** The [st.cache_data] memoisation and the application state *)

Record entry (V : Type) : Type := mkEntry {
  value : V;
  fetched_at : Z
}.

Definition store (K V : Type) : Type := list (K * entry V).

Section CacheData.
Variables K V : Type.
Variable key_eqb : K -> K -> bool.
Variable ttl : Z.
Variable f : K -> world -> result V * world.

Fixpoint cache_find (k : K) (c : store K V) : option (entry V) :=
  match c with
  | [] => None
  | (k', e) :: c' => if key_eqb k k' then Some e else cache_find k c'
  end.

(** Modelled from the spec: [st.cache_data(ttl=...)] is Streamlit's
    decorator and its code is not part of the repository.  A lookup at
    time [now] (seconds) serves the entry of its key while
    [now - fetch_timestamp < ttl], with no call of the wrapped function;
    otherwise it calls the wrapped function once and, when that returns,
    stores the value under the key with [now] as its timestamp.  A call
    that raises stores nothing. *)
Definition cache_data (now : Z) (k : K) (c : store K V) (w : world)
  : result V * store K V * world :=
  let miss :=
    let (res, w') := f k w in
    match res with
    | Ok v => (Ok v, (k, mkEntry v now) :: c, w')
    | Raise e => (Raise e, c, w')
    end in
  match cache_find k c with
  | Some e => if now - fetched_at e <? ttl then (Ok (value e), c, w) else miss
  | None => miss
  end.
End CacheData.

Definition unit_eqb (_ _ : unit) : bool := true.

Definition ts_key : Type := str * str * str * str.

Definition ts_key_eqb (a b : ts_key) : bool :=
  let '(a1, a2, a3, a4) := a in
  let '(b1, b2, b3, b4) := b in
  str_eqb a1 b1 && str_eqb a2 b2 && str_eqb a3 b3 && str_eqb a4 b4.

(** The time-to-live of the three decorators, in seconds. *)
Definition TTL_SYMBOLS : Z := 60 * 15.
Definition TTL_LATEST : Z := 60 * 5.
Definition TTL_TIMESERIES : Z := 60 * 60.

(** The process-wide state: one cache per decorated function, and the
    provider. *)
Record app : Type := mkApp {
  symbols_cache : store unit json;
  latest_cache : store str json;
  timeseries_cache : store ts_key (list point);
  net : world
}.

(** The decorated [fetch_symbols], [fetch_latest] and [fetch_timeseries],
    as the rest of the script calls them. *)
Definition cached_fetch_symbols (now : Z) (a : app) : result json * app :=
  let '(res, c, w) :=
    cache_data unit_eqb TTL_SYMBOLS (fun _ => fetch_symbols) now tt
               (symbols_cache a) (net a) in
  (res, mkApp c (latest_cache a) (timeseries_cache a) w).

Definition cached_fetch_latest (now : Z) (base : str) (a : app)
  : result json * app :=
  let '(res, c, w) :=
    cache_data str_eqb TTL_LATEST fetch_latest now base
               (latest_cache a) (net a) in
  (res, mkApp (symbols_cache a) c (timeseries_cache a) w).

Definition cached_fetch_timeseries (now : Z) (base target start_date end_date : str)
           (a : app) : result (list point) * app :=
  let '(res, c, w) :=
    cache_data ts_key_eqb TTL_TIMESERIES
               (fun '(b, t, sd, ed) => fetch_timeseries b t sd ed) now
               (base, target, start_date, end_date)
               (timeseries_cache a) (net a) in
  (res, mkApp (symbols_cache a) (latest_cache a) c w).

(** Whether a lookup at [now] has no entry to serve: none under its key,
    or one whose age has reached [ttl]. *)
Definition expired (V : Type) (ttl now : Z) (o : option (entry V)) : bool :=
  match o with
  | Some e => negb (now - fetched_at e <? ttl)
  | None => true
  end.

(** The handler of the "Refresh rates now" button:
    [if refresh_btn: st.success("Refreshing cached rates...")].  It returns
    the state it leaves and the messages it shows. *)
Definition on_refresh (refresh_btn : bool) (a : app) : app * list string :=
  if refresh_btn then (a, ["Refreshing cached rates..."%string]) else (a, []).

(** ** What a pattern matches, declaratively *)

(** Zero or more non-empty words of [R] in a row, threading the groups. *)
Inductive iter (R : str -> caps -> caps -> Prop) : str -> caps -> caps -> Prop :=
| iter_nil : forall c, iter R [] c c
| iter_cons : forall w1 w2 c c1 c2,
    w1 <> [] -> R w1 c c1 -> iter R w2 c1 c2 -> iter R (w1 ++ w2) c c2.

(** [rsem r w c c']: [r] matches exactly the word [w], and turns the groups
    [c] into [c']. *)
Fixpoint rsem (r : regex) (w : str) (c c' : caps) : Prop :=
  match r with
  | Cls p => exists x, w = [x] /\ p x = true /\ c' = c
  | Eps => w = [] /\ c' = c
  | Seq r1 r2 =>
      exists w1 w2 c1, w = w1 ++ w2 /\ rsem r1 w1 c c1 /\ rsem r2 w2 c1 c'
  | Alt r1 r2 => rsem r1 w c c' \/ rsem r2 w c c'
  | Star r1 => iter (rsem r1) w c c'
  | Group i r1 => exists c1, rsem r1 w c c1 /\ c' = (i, w) :: c1
  end.

(** [r] matches some prefix of [s]. *)
Definition matches_at (r : regex) (s : str) : Prop :=
  exists w post c, s = w ++ post /\ rsem r w [] c.

(** The shapes of the pieces of a match of [PATTERN]. *)
Definition is_number (num : str) : Prop :=
  exists ip, all_digits ip = true /\
    (num = ip \/ exists fp, all_digits fp = true /\ num = ip ++ 46%N :: fp).

Definition is_spaces (ws : str) : Prop := forallb isspace ws = true.

Definition is_token (t : str) : Prop :=
  (3 <= length t)%nat /\ forallb is_letter_ic t = true.

Definition is_to_in (kw : str) : Prop :=
  exists x y, kw = [x; y] /\
    ((is_lit_ic 116%N x = true /\ is_lit_ic 111%N y = true) \/
     (is_lit_ic 105%N x = true /\ is_lit_ic 110%N y = true)).

(** [w] is: a number [num], optional white space, a token [a] of three or
    more letters, optional white space, [to] or [in], optional white space,
    a token [b] of three or more letters. *)
Definition pattern_word (w num a b : str) : Prop :=
  exists ws1 ws2 kw ws3,
    w = num ++ ws1 ++ a ++ ws2 ++ kw ++ ws3 ++ b /\
    is_number num /\ is_spaces ws1 /\ is_token a /\ is_spaces ws2 /\
    is_to_in kw /\ is_spaces ws3 /\ is_token b.

(** Some word of that shape starts at the head of [suf]. *)
Definition has_pattern_at (suf : str) : Prop :=
  exists w post num a b, suf = w ++ post /\ pattern_word w num a b.

(** The order of two items by their keys. *)
Definition key_le (A : Type) (x y : str * A) : Prop :=
  str_leb (fst x) (fst y) = true.

(** A row of the [rates] object of a time-series response as the source
    comments on it: [{ 'YYYY-MM-DD': {'TARGET': value}, ... }]. *)
Definition is_rate_row (it : str * json) : Prop :=
  (exists n, fromisoformat (fst it) = Ok n) /\ (exists o, snd it = JObj o).

(** The point a row of the [rates] object stands for. *)
Definition row_point (target : str) (it : str * json) : point :=
  mkPoint (match fromisoformat (fst it) with Ok n => n | Raise _ => 0 end)
          (match snd it with JObj o => dict_get target o | _ => None end).

(** What the specification asks of a cached operation [cached], whose
    entries live in [cache_of] and whose underlying fetch is [f]:
    - two keys are the same entry only when they are equal;
    - an entry is served, with no fetch and no change of state, while
      [now - fetch_timestamp < ttl];
    - with no entry, or with one whose age has reached [ttl], the lookup
      runs the underlying fetch and returns what that fetch returns; a
      value is stored under the key with [now] as its fetch timestamp, a
      failure leaves the cache as it was, and the entries of the other
      keys are as before in both cases;
    - after a lookup that returned a value, a lookup of the same key less
      than [ttl] later leaves at most one request sent over both;
    - after a lookup that fetched a value at [now1], a lookup of the same
      key at [now2] is served that value with no change of state when
      [now2 - now1 < ttl], and otherwise runs the fetch again and returns
      what the new fetch returns. *)
Definition memoised (K V : Type) (ttl : Z) (key_eqb : K -> K -> bool)
           (f : K -> world -> result V * world)
           (cache_of : app -> store K V)
           (cached : Z -> K -> app -> result V * app) : Prop :=
  (forall k k', key_eqb k k' = true <-> k = k') /\
  (forall now k a e,
     cache_find key_eqb k (cache_of a) = Some e ->
     now - fetched_at e < ttl ->
     cached now k a = (Ok (value e), a)) /\
  (forall now k a,
     cache_find key_eqb k (cache_of a) = None \/
     (exists e, cache_find key_eqb k (cache_of a) = Some e /\
                ttl <= now - fetched_at e) ->
     let (r, a') := cached now k a in
     r = fst (f k (net a)) /\
     net a' = snd (f k (net a)) /\
     (forall k', k' <> k ->
        cache_find key_eqb k' (cache_of a') = cache_find key_eqb k' (cache_of a)) /\
     match r with
     | Ok v => cache_find key_eqb k (cache_of a') = Some (mkEntry v now)
     | Raise _ => cache_of a' = cache_of a
     end) /\
  (forall now1 now2 k a v a1,
     cached now1 k a = (Ok v, a1) ->
     now2 - now1 < ttl ->
     (length (sent (net (snd (cached now2 k a1))))
      <= length (sent (net a)) + 1)%nat) /\
  (forall now1 now2 k a v a1,
     cache_find key_eqb k (cache_of a) = None \/
     (exists e, cache_find key_eqb k (cache_of a) = Some e /\
                ttl <= now1 - fetched_at e) ->
     cached now1 k a = (Ok v, a1) ->
     (now2 - now1 < ttl -> cached now2 k a1 = (Ok v, a1)) /\
     (ttl <= now2 - now1 ->
      fst (cached now2 k a1) = fst (f k (net a1)) /\
      net (snd (cached now2 k a1)) = snd (f k (net a1)))).

(** The pattern as the specification words it: a decimal number, optional
    white space, a token of one or more letters, white space, [to] or [in],
    white space, a token of one or more letters. *)
Definition SPEC_PATTERN : regex :=
  Seq (Group 1 NUMBER)
 (Seq SPACES
 (Seq (Group 2 (Plus LETTER))
 (Seq (Plus (Cls isspace))
 (Seq TO_IN
 (Seq (Plus (Cls isspace))
      (Group 3 (Plus LETTER))))))).

(** ** Further definitions *)

(** The code points on which [upper_char] is Python's [str.upper]: ASCII,
    and the letters of the class [is_letter_ic]. *)
Definition upper_faithful (x : char) : bool :=
  (N.ltb x 128 || is_letter_ic x)%bool.

(** [r] takes the word [w] in front of [rest] on its first try: whatever
    the continuation, a match of the continuation on [rest] is a match of
    [r] followed by the continuation; [f] is what [r] adds to the groups. *)
Definition takes (r : regex) (w rest : str) (f : caps -> caps) : Prop :=
  forall c k m, k rest (f c) = Some m -> rmatch r (w ++ rest) c k = Some m.

(** [rest] does not go on with a character of the class [p]. *)
Definition stops (p : char -> bool) (rest : str) : Prop :=
  match rest with
  | [] => True
  | y :: _ => p y = false
  end.

(** ** The charts and the conversion block of the script *)

Definition TOP_10 : list str :=
  map lit ["USD"; "EUR"; "JPY"; "GBP"; "AUD"; "CAD"; "CHF"; "CNY"; "SEK"; "NZD"]%string.

(** [v is not None], for [v = d.get(key)]: an absent key and a JSON [null]
    both give Python's [None]. *)
Definition is_not_none (v : option json) : bool :=
  match v with
  | None | Some JNull => false
  | Some _ => true
  end.

(** The truth value of [v = d.get(key)] in [if v:]. *)
Definition truthy (v : option json) : bool :=
  match v with
  | None | Some JNull => false
  | Some (JBool b) => b
  | Some (JNum q) => negb (Qnum q =? 0)
  | Some (JStr s) => negb (Nat.eqb (length s) 0)
  | Some (JArr l) => negb (Nat.eqb (length l) 0)
  | Some (JObj o) => negb (Nat.eqb (length o) 0)
  end.

(** A row of the frame behind the bar chart. *)
Record bar_row : Type := mkBarRow {
  bar_currency : str;
  bar_rate : json;
  bar_name : json
}.

(** The loop of [plot_top10_rates] over the codes: a row for each code
    whose rate is not [None], named by
    [symbols.get(code, {}).get("description", "")]. *)
Fixpoint top10_rows (codes : list str) (rates symbols : json)
  : result (list bar_row) :=
  match codes with
  | [] => Ok []
  | code :: rest =>
      match rates with
      | JObj o =>
          match dict_get code o with
          | Some v =>
              if is_not_none (Some v) then
                match json_get symbols code (JObj []) with
                | Raise e => Raise e
                | Ok entry =>
                    match json_get entry (lit "description") (JStr []) with
                    | Raise e => Raise e
                    | Ok name =>
                        match top10_rows rest rates symbols with
                        | Ok rows => Ok (mkBarRow code v name :: rows)
                        | Raise e => Raise e
                        end
                    end
                end
              else top10_rows rest rates symbols
          | None => top10_rows rest rates symbols
          end
      | _ => Raise AttributeError
      end
  end.

(** The loop of [plot_pie_distribution]: a row for each code whose rate is
    true in [if v:]. *)
Fixpoint pie_rows (codes : list str) (rates : json) : result (list (str * json)) :=
  match codes with
  | [] => Ok []
  | code :: rest =>
      match rates with
      | JObj o =>
          match dict_get code o with
          | Some v =>
              if truthy (Some v) then
                match pie_rows rest rates with
                | Ok rows => Ok ((code, v) :: rows)
                | Raise e => Raise e
                end
              else pie_rows rest rates
          | None => pie_rows rest rates
          end
      | _ => Raise AttributeError
      end
  end.

(** What an [except Exception as e] clause of the script catches: an
    exception of the modelled code, or the [TypeError] / [ValueError] that
    the format [:,.2f] raises on a value that is not a number. *)
Inductive caught : Type :=
| Caught (e : exn)
| CaughtFormat.

(** What the script puts on the page; headings and separators are left
    out.  A chart stands for the frame it is drawn from. *)
Inductive widget : Type :=
| InfoW (msg : string) (cause : option caught)
| ErrorW (msg : string) (cause : caught)
| SuccessW (msg : string)
| ConvertedW (amount : Q) (base : str) (value : json) (target : str)
| DetailsW (meta : list (str * json))
| PreviewW (amount : Q) (base : str) (value : json) (target : str)
| BarChart (base : str) (rows : list bar_row)
| PieChart (rows : list (str * json))
| LineChart (base target : str) (pts : list point).

(** [plot_top10_rates] *)
Definition plot_top10_rates (now : Z) (base : str) (symbols : json) (a : app)
  : result (list widget) * app :=
  let (res, a') := cached_fetch_latest now base a in
  match res with
  | Raise e => (Raise e, a')
  | Ok rates =>
      match top10_rows TOP_10 rates symbols with
      | Raise e => (Raise e, a')
      | Ok [] =>
          (Ok [InfoW "No rates available to plot for top currencies." None], a')
      | Ok rows => (Ok [BarChart base rows], a')
      end
  end.

(** [plot_pie_distribution] *)
Definition plot_pie_distribution (now : Z) (base : str) (a : app)
  : result (list widget) * app :=
  let (res, a') := cached_fetch_latest now base a in
  match res with
  | Raise e => (Raise e, a')
  | Ok rates =>
      match pie_rows TOP_10 rates with
      | Raise e => (Raise e, a')
      | Ok [] => (Ok [], a')
      | Ok rows => (Ok [PieChart rows], a')
      end
  end.

(** [plot_timeseries] *)
Definition plot_timeseries (df : list point) (base target : str) : list widget :=
  match df with
  | [] => [InfoW "No historical data to show." None]
  | _ => [LineChart base target df]
  end.

(** [days = 7 if days_history == "7 days" else 30 if ... else 90] *)
Definition history_days (days_history : string) : Z :=
  if String.eqb days_history "7 days" then 7
  else if String.eqb days_history "30 days" then 30
  else 90.

(** [try: ... except Exception as e: st.error(msg + str(e))], as the
    script wraps each chart of its right column. *)
Definition guarded (msg : string) (r : result (list widget)) : list widget :=
  match r with
  | Ok ws => ws
  | Raise e => [ErrorW msg (Caught e)]
  end.

(** The historical block of the right column: the range ends at [today]
    (the UTC date of the run) and starts [days] before. *)
Definition history_block (now : Z) (today : date) (days_history : string)
           (base target : str) (a : app) : list widget * app :=
  let days := history_days days_history in
  let end_ := today in
  let start := end_ - days in
  let (res, a') :=
    cached_fetch_timeseries now base target (strftime start) (strftime end_) a in
  match res with
  | Ok ts_df => (plot_timeseries ts_df base target, a')
  | Raise e => ([ErrorW "Could not fetch historical data: " (Caught e)], a')
  end.

(** Whether [f"{v:,.2f}"] formats [v = j.get("result")]: numbers and
    booleans do; [None], strings, lists and dicts raise. *)
Definition formats_2f (v : option json) : bool :=
  match v with
  | Some (JNum _) | Some (JBool _) => true
  | _ => false
  end.

(** The keys of the body shown under "Details:". *)
Definition is_detail_key (k : str) : bool :=
  (str_eqb k (lit "query") || str_eqb k (lit "info")
   || str_eqb k (lit "date") || str_eqb k (lit "historical"))%bool.

(** The body of [if st.button("Convert"):], lines 260 to 266. *)
Definition convert_block (amount : Q) (base target : str) (w : world)
  : list widget * world :=
  let (res, w') := convert_currency amount base target w in
  match res with
  | Raise e => ([ErrorW "Conversion failed: " (Caught e)], w')
  | Ok (converted_val, meta) =>
      match converted_val with
      | Some v =>
          if formats_2f converted_val then
            match meta with
            | JObj o =>
                ([ConvertedW amount base v target;
                  DetailsW (filter (fun kv => is_detail_key (fst kv)) o)], w')
            | _ => ([ErrorW "Conversion failed: " (Caught AttributeError)], w')
            end
          else ([ErrorW "Conversion failed: " CaughtFormat], w')
      | None => ([ErrorW "Conversion failed: " CaughtFormat], w')
      end
  end.

(** The quick preview, lines 268 to 272. *)
Definition preview_block (amount : Q) (base target : str) (w : world)
  : list widget * world :=
  let (res, w') := convert_currency amount base target w in
  match res with
  | Raise e => ([InfoW "Preview unavailable: " (Some (Caught e))], w')
  | Ok (preview_val, _) =>
      match preview_val with
      | Some v =>
          if formats_2f preview_val then ([PreviewW amount base v target], w')
          else ([InfoW "Preview unavailable: " (Some CaughtFormat)], w')
      | None => ([InfoW "Preview unavailable: " (Some CaughtFormat)], w')
      end
  end.

(** The conversion part of the left column: the Convert block when its
    button was pressed, then the preview. *)
Definition convert_section (convert_btn : bool) (amount : Q) (base target : str)
           (w : world) : list widget * world :=
  let (ws1, w1) :=
    if convert_btn then convert_block amount base target w else ([], w) in
  let (ws2, w2) := preview_block amount base target w1 in
  (ws1 ++ ws2, w2).

(** [r] is the raising of [e]. *)
Definition raises (A : Type) (r : result A) (e : exn) : Prop := r = Raise e.
Arguments raises {A} r e.

(** Ten characters, digits but for a hyphen in the fifth and eighth place:
    the strings on which [fromisoformat] above and Python's agree on
    raising [ValueError] exactly for what is no calendar date. *)
Definition iso_shaped (s : str) : bool :=
  match s with
  | [y1; y2; y3; y4; h1; m1; m2; h2; d1; d2] =>
      (forallb is_digit [y1; y2; y3; y4; m1; m2; d1; d2]
       && N.eqb h1 45 && N.eqb h2 45)%bool
  | _ => false
  end.

(** The four requests, as the provider's log shows them. *)
Definition symbols_request : request :=
  mkRequest "https://api.exchangerate.host/symbols" [] 10.

Definition latest_request (base : str) : request :=
  mkRequest "https://api.exchangerate.host/latest" [("base", PStr base)]%string 10.

Definition timeseries_request (base target start_date end_date : str) : request :=
  mkRequest "https://api.exchangerate.host/timeseries"
            [("start_date", PStr start_date); ("end_date", PStr end_date);
             ("base", PStr base); ("symbols", PStr target)]%string 15.

Definition convert_request (amount : Q) (base target : str) : request :=
  mkRequest "https://api.exchangerate.host/convert"
            [("from", PStr base); ("to", PStr target);
             ("amount", PFloat amount)]%string 10.

(** ** The matcher against the declarative reading *)

Unset Implicit Arguments.

Lemma star_loop_sound (step : str -> caps -> (str -> caps -> option caps) -> option caps)
      (R : str -> caps -> caps -> Prop) k :
  (forall s c k' m, step s c k' = Some m ->
     exists w s' c', s = w ++ s' /\ R w c c' /\ k' s' c' = Some m) ->
  forall fuel s c m, star_loop step k fuel s c = Some m ->
    exists w s' c', s = w ++ s' /\ iter R w c c' /\ k s' c' = Some m.
Proof.
  intros Hstep fuel.
  induction fuel as [|fuel IH]; intros s c m H; simpl in H.
  - exists [], s, c. repeat split; [constructor | assumption].
  - destruct (step s c _) as [m'|] eqn:E.
    + injection H as ->.
      apply Hstep in E as (w1 & s1 & c1 & -> & HR & Hk).
      destruct (Nat.ltb _ _) eqn:L; [|discriminate].
      apply IH in Hk as (w2 & s2 & c2 & -> & Hit & Hk).
      exists (w1 ++ w2), s2, c2. rewrite <- app_assoc.
      repeat split; trivial.
      apply iter_cons with c1; trivial.
      intros ->. apply Nat.ltb_lt in L. simpl in L. lia.
    + exists [], s, c. repeat split; [constructor | assumption].
Qed.

Lemma rmatch_sound (r : regex) :
  forall s c k m, rmatch r s c k = Some m ->
    exists w s' c', s = w ++ s' /\ rsem r w c c' /\ k s' c' = Some m.
Proof.
  induction r as [p| |r1 IH1 r2 IH2|r1 IH1 r2 IH2|r1 IH1|i r1 IH1];
    intros s c k m H; simpl in H.
  - destruct s as [|x s']; [discriminate|].
    destruct (p x) eqn:Hp; [|discriminate].
    exists [x], s', c. simpl. eauto 6.
  - exists [], s, c. simpl. auto.
  - apply IH1 in H as (w1 & s1 & c1 & -> & H1 & H).
    apply IH2 in H as (w2 & s2 & c2 & -> & H2 & H).
    exists (w1 ++ w2), s2, c2. rewrite <- app_assoc. simpl. eauto 8.
  - destruct (rmatch r1 s c k) as [m'|] eqn:E.
    + injection H as ->. apply IH1 in E as (w & s' & c' & ? & ? & ?).
      exists w, s', c'. simpl. auto.
    + apply IH2 in H as (w & s' & c' & ? & ? & ?).
      exists w, s', c'. simpl. auto.
  - exact (@star_loop_sound (rmatch r1) (rsem r1) k IH1 _ _ _ _ H).
  - apply IH1 in H as (w & s' & c' & -> & H1 & H).
    rewrite length_app, Nat.add_sub, firstn_app, Nat.sub_diag, firstn_all in H.
    simpl in H. rewrite app_nil_r in H.
    exists w, s', ((i, w) :: c'). simpl. eauto.
Qed.

Lemma star_loop_complete (step : str -> caps -> (str -> caps -> option caps) -> option caps)
      (R : str -> caps -> caps -> Prop) k :
  (forall w c c', R w c c' -> forall s' k' m, k' s' c' = Some m ->
     exists m', step (w ++ s') c k' = Some m') ->
  forall w c c', iter R w c c' ->
  forall s' m fuel, k s' c' = Some m -> (length (w ++ s') <= fuel)%nat ->
    exists m', star_loop step k fuel (w ++ s') c = Some m'.
Proof.
  intros Hstep w c c' Hit.
  induction Hit as [c|w1 w2 c c1 c2 Hne HR Hit IH]; intros s' m fuel Hk Hlen.
  - simpl. destruct fuel as [|fuel]; simpl; [eauto|].
    destruct (step s' c _); eauto.
  - destruct fuel as [|fuel].
    { destruct w1; [congruence|]. simpl in Hlen. lia. }
    simpl. rewrite <- app_assoc.
    assert (Hlt : (length (w2 ++ s') < length (w1 ++ w2 ++ s'))%nat).
    { destruct w1; [congruence|]. rewrite (length_app (_ :: _)). simpl. lia. }
    destruct (IH s' m fuel Hk) as (m2 & Hm2).
    { rewrite <- app_assoc in Hlen. lia. }
    destruct (Hstep _ _ _ HR (w2 ++ s')
                (fun s1 c1 =>
                   if Nat.ltb (length s1) (length (w1 ++ w2 ++ s'))
                   then star_loop step k fuel s1 c1 else None) m2) as (m' & Hm').
    { apply Nat.ltb_lt in Hlt. rewrite Hlt. exact Hm2. }
    unfold str in *. rewrite Hm'. eauto.
Qed.

Lemma rmatch_complete (r : regex) :
  forall w c c', rsem r w c c' ->
  forall s' k m, k s' c' = Some m -> exists m', rmatch r (w ++ s') c k = Some m'.
Proof.
  induction r as [p| |r1 IH1 r2 IH2|r1 IH1 r2 IH2|r1 IH1|i r1 IH1];
    intros w c c' H s' k m Hk; simpl in H.
  - destruct H as (x & -> & Hp & ->). simpl. rewrite Hp. eauto.
  - destruct H as (-> & ->). simpl. eauto.
  - destruct H as (w1 & w2 & c1 & -> & H1 & H2).
    destruct (IH2 _ _ _ H2 s' k m Hk) as (m2 & Hm2).
    simpl. rewrite <- app_assoc.
    exact (IH1 _ _ _ H1 (w2 ++ s') (fun s1 c1 => rmatch r2 s1 c1 k) m2 Hm2).
  - simpl. destruct (rmatch r1 (w ++ s') c k) as [m1|] eqn:E; [eauto|].
    destruct H as [H|H].
    + destruct (IH1 _ _ _ H s' k m Hk) as (m' & Hm'). congruence.
    + exact (IH2 _ _ _ H s' k m Hk).
  - simpl.
    exact (@star_loop_complete (rmatch r1) (rsem r1) k IH1 _ _ _ H s' m _ Hk
             (Nat.le_refl _)).
  - destruct H as (c1 & H & ->). simpl.
    apply (IH1 _ _ _ H s') with (m := m).
    rewrite length_app, Nat.add_sub, firstn_app, Nat.sub_diag, firstn_all.
    simpl. rewrite app_nil_r. exact Hk.
Qed.

(** A start position matches exactly when the pattern has a word there. *)
Lemma rmatch_matches_at (r : regex) (s : str) :
  (exists m, rmatch r s [] (fun _ c => Some c) = Some m) <-> matches_at r s.
Proof.
  split.
  - intros (m & H). apply rmatch_sound in H as (w & s' & c' & -> & H & _).
    exists w, s', c'. auto.
  - intros (w & post & c & -> & H).
    exact (rmatch_complete r w [] c H post (fun _ c => Some c) c eq_refl).
Qed.

Lemma search_none (r : regex) (s : str) :
  search r s = None <-> (forall pre suf, s = pre ++ suf -> ~ matches_at r suf).
Proof.
  induction s as [|x s IH]; simpl.
  - destruct (rmatch r [] [] _) as [m|] eqn:E.
    + split; [discriminate|]. intros H. exfalso.
      apply (H [] []); trivial. apply rmatch_matches_at. eauto.
    + split; trivial. intros _ pre suf Hs.
      symmetry in Hs. apply app_eq_nil in Hs as (-> & ->).
      rewrite <- rmatch_matches_at. intros (m & Hm). congruence.
  - destruct (rmatch r (x :: s) [] _) as [m|] eqn:E.
    + split; [discriminate|]. intros H. exfalso.
      apply (H [] (x :: s)); trivial. apply rmatch_matches_at. eauto.
    + rewrite IH. split.
      * intros H pre suf Hs. destruct pre as [|y pre]; simpl in Hs.
        -- subst suf. rewrite <- rmatch_matches_at. intros (m & Hm). congruence.
        -- injection Hs as -> ->. eapply H; reflexivity.
      * intros H pre suf ->. apply (H (x :: pre) suf). reflexivity.
Qed.

(** A successful search returns the groups of a word of the pattern that
    starts at the leftmost position where the pattern matches at all. *)
Lemma search_some (r : regex) (s : str) (m : caps) :
  search r s = Some m ->
  exists pre w post, s = pre ++ w ++ post /\ rsem r w [] m /\
    (forall pre1 suf1, s = pre1 ++ suf1 -> (length pre1 < length pre)%nat ->
       ~ matches_at r suf1).
Proof.
  induction s as [|x s IH]; simpl.
  - destruct (rmatch r [] [] _) as [m'|] eqn:E; [|discriminate].
    intros [= ->]. apply rmatch_sound in E as (w & s' & c' & Hs & H & [= ->]).
    exists [], w, s'. simpl. repeat split; trivial. intros; lia.
  - destruct (rmatch r (x :: s) [] _) as [m'|] eqn:E.
    + intros [= ->]. apply rmatch_sound in E as (w & s' & c' & Hs & H & [= ->]).
      exists [], w, s'. simpl. repeat split; trivial. intros; lia.
    + intros H. apply IH in H as (pre & w & post & -> & H & Hleft).
      exists (x :: pre), w, post. repeat split; trivial.
      intros pre1 suf1 Hs Hlen. destruct pre1 as [|y pre1]; simpl in Hs.
      * subst suf1. rewrite <- rmatch_matches_at. intros (m' & Hm'). congruence.
      * injection Hs as -> Hs. apply (Hleft pre1 suf1 Hs). simpl in Hlen. lia.
Qed.

(** ** The words of [PATTERN] *)

Lemma iter_cls (p : char -> bool) (w : str) (c c' : caps) :
  iter (rsem (Cls p)) w c c' <-> forallb p w = true /\ c' = c.
Proof.
  split.
  - induction 1 as [c|w1 w2 c c1 c2 Hne HR Hit IH]; simpl; auto.
    simpl in HR. destruct HR as (x & -> & Hp & ->). destruct IH as [IH ->].
    simpl. rewrite Hp, IH. auto.
  - intros [H ->]. induction w as [|x w IH]; [constructor|].
    simpl in H. apply andb_true_iff in H as [Hx Hw].
    change (x :: w) with ([x] ++ w).
    apply iter_cons with c; [discriminate | simpl; eauto | auto].
Qed.

Lemma rsem_cls_seq (p : char -> bool) (r : regex) (w : str) (c c' : caps) :
  rsem (Seq (Cls p) r) w c c' <->
  exists x w', w = x :: w' /\ p x = true /\ rsem r w' c c'.
Proof.
  simpl. split.
  - intros (w1 & w2 & c1 & -> & (x & -> & Hp & ->) & H). exists x, w2. auto.
  - intros (x & w' & -> & Hp & H). exists [x], w', c. eauto 6.
Qed.

Lemma rsem_plus_cls (p : char -> bool) (w : str) (c c' : caps) :
  rsem (Plus (Cls p)) w c c' <->
  (negb (Nat.eqb (length w) 0) && forallb p w)%bool = true /\ c' = c.
Proof.
  unfold Plus. rewrite rsem_cls_seq. split.
  - intros (x & w' & -> & Hp & H). apply iter_cls in H as [H ->].
    simpl. rewrite Hp, H. auto.
  - intros [H ->]. destruct w as [|x w]; [discriminate|]. simpl in H.
    apply andb_true_iff in H as [Hp H].
    exists x, w. repeat split; trivial. apply iter_cls. auto.
Qed.

Lemma rsem_atleast3_cls (p : char -> bool) (w : str) (c c' : caps) :
  rsem (AtLeast3 (Cls p)) w c c' <->
  (3 <= length w)%nat /\ forallb p w = true /\ c' = c.
Proof.
  unfold AtLeast3. rewrite rsem_cls_seq. split.
  - intros (x & w1 & -> & Hx & H).
    apply rsem_cls_seq in H as (y & w2 & -> & Hy & H).
    apply rsem_cls_seq in H as (z & w3 & -> & Hz & H).
    apply iter_cls in H as [H ->]. simpl. rewrite Hx, Hy, Hz, H.
    repeat split; trivial; lia.
  - intros (Hlen & H & ->).
    destruct w as [|x [|y [|z w]]]; simpl in Hlen; try lia.
    simpl in H. repeat (apply andb_true_iff in H as [? H]).
    exists x, (y :: z :: w). repeat split; trivial.
    apply rsem_cls_seq. exists y, (z :: w). repeat split; trivial.
    apply rsem_cls_seq. exists z, w. repeat split; trivial.
    apply iter_cls. auto.
Qed.

Lemma rsem_three_cls (p : char -> bool) (w : str) (c c' : caps) :
  rsem (Seq (Cls p) (Seq (Cls p) (Cls p))) w c c' <->
  length w = 3%nat /\ forallb p w = true /\ c' = c.
Proof.
  rewrite rsem_cls_seq. split.
  - intros (x & w1 & -> & Hx & H).
    apply rsem_cls_seq in H as (y & w2 & -> & Hy & H).
    simpl in H. destruct H as (z & -> & Hz & ->).
    simpl. rewrite Hx, Hy, Hz. auto.
  - intros (Hlen & H & ->).
    destruct w as [|x [|y [|z [|t w]]]]; simpl in Hlen; try lia.
    simpl in H. repeat (apply andb_true_iff in H as [? H]).
    exists x, [y; z]. repeat split; trivial.
    apply rsem_cls_seq. exists y, [z]. repeat split; trivial.
    simpl. eauto.
Qed.

(** Group 2, [[A-Za-z]{3,}|[A-Za-z]{3}], holds the same words as its left
    branch. *)
Lemma rsem_token (w : str) (c c' : caps) :
  rsem (Alt (AtLeast3 LETTER) (Seq LETTER (Seq LETTER LETTER))) w c c' <->
  is_token w /\ c' = c.
Proof.
  unfold is_token, LETTER.
  change (rsem (Alt ?a ?b) w c c') with (rsem a w c c' \/ rsem b w c c').
  rewrite rsem_atleast3_cls, rsem_three_cls. intuition lia.
Qed.

Lemma rsem_number (w : str) (c c' : caps) :
  rsem NUMBER w c c' <-> is_number w /\ c' = c.
Proof.
  unfold NUMBER, is_number, Opt, DIGIT, DOT, all_digits. split.
  - intros (w1 & w2 & c1 & -> & H1 & H2).
    apply rsem_plus_cls in H1 as [H1 ->].
    destruct H2 as [H2|H2].
    + apply rsem_cls_seq in H2 as (x & fp & -> & Hx & H2).
      apply N.eqb_eq in Hx as <-.
      apply rsem_plus_cls in H2 as [H2 ->].
      split; trivial. exists w1. split; trivial. right. exists fp. auto.
    + simpl in H2. destruct H2 as (-> & ->). rewrite app_nil_r.
      split; trivial. exists w1. auto.
  - intros [(ip & Hip & [->|(fp & Hfp & ->)]) ->].
    + exists ip, [], c. rewrite app_nil_r. repeat split.
      * apply rsem_plus_cls. auto.
      * right. simpl. auto.
    + exists ip, (46%N :: fp), c. repeat split.
      * apply rsem_plus_cls. auto.
      * left. apply rsem_cls_seq. exists 46%N, fp. repeat split.
        apply rsem_plus_cls. auto.
Qed.

Lemma rsem_to_in (w : str) (c c' : caps) :
  rsem TO_IN w c c' <-> is_to_in w /\ c' = c.
Proof.
  unfold TO_IN, is_to_in. simpl. split.
  - intros [H|H];
      destruct H as (w1 & w2 & c1 & -> & (x & -> & Hx & ->) & (y & -> & Hy & ->));
      (split; [exists x, y; auto | reflexivity]).
  - intros [(x & y & -> & [[Hx Hy]|[Hx Hy]]) ->]; [left|right];
      exists [x], [y], c; eauto 10.
Qed.

Lemma rsem_spaces (w : str) (c c' : caps) :
  rsem SPACES w c c' <-> is_spaces w /\ c' = c.
Proof. apply iter_cls. Qed.

(** The words of [PATTERN] and the groups they leave. *)
Lemma rsem_pattern (w : str) (m : caps) :
  rsem PATTERN w [] m <->
  exists num a b, pattern_word w num a b /\ m = [(3%nat, b); (2%nat, a); (1%nat, num)].
Proof.
  unfold PATTERN, pattern_word. split.
  - intros (num & w1 & c1 & -> & (c0 & Hn & ->) & H).
    apply rsem_number in Hn as [Hn ->].
    destruct H as (ws1 & w2 & c2 & -> & H1 & H).
    apply rsem_spaces in H1 as [H1 ->].
    destruct H as (a & w3 & c3 & -> & (c0 & Ha & ->) & H).
    apply rsem_token in Ha as [Ha ->].
    destruct H as (ws2 & w4 & c4 & -> & H2 & H).
    apply rsem_spaces in H2 as [H2 ->].
    destruct H as (kw & w5 & c5 & -> & Hk & H).
    apply rsem_to_in in Hk as [Hk ->].
    destruct H as (ws3 & b & c6 & -> & H3 & (c0 & Hb & ->)).
    apply rsem_spaces in H3 as [H3 ->].
    apply rsem_atleast3_cls in Hb as (Hb1 & Hb2 & ->).
    exists num, a, b. split; trivial.
    exists ws1, ws2, kw, ws3. unfold is_token. auto 10.
  - intros (num & a & b & (ws1 & ws2 & kw & ws3 & -> & Hn & H1 & Ha & H2 & Hk & H3 & Hb) & ->).
    exists num, (ws1 ++ a ++ ws2 ++ kw ++ ws3 ++ b), [(1%nat, num)].
    split; trivial. split.
    { exists []. split; trivial. apply rsem_number. auto. }
    exists ws1, (a ++ ws2 ++ kw ++ ws3 ++ b), [(1%nat, num)].
    split; trivial. split. { apply rsem_spaces. auto. }
    exists a, (ws2 ++ kw ++ ws3 ++ b), [(2%nat, a); (1%nat, num)].
    split; trivial. split.
    { exists [(1%nat, num)]. split; trivial. apply rsem_token. auto. }
    exists ws2, (kw ++ ws3 ++ b), [(2%nat, a); (1%nat, num)].
    split; trivial. split. { apply rsem_spaces. auto. }
    exists kw, (ws3 ++ b), [(2%nat, a); (1%nat, num)].
    split; trivial. split. { apply rsem_to_in. auto. }
    exists ws3, b, [(2%nat, a); (1%nat, num)].
    split; trivial. split. { apply rsem_spaces. auto. }
    exists [(2%nat, a); (1%nat, num)]. split; trivial.
    apply rsem_atleast3_cls. destruct Hb. auto.
Qed.

Lemma matches_at_pattern (suf : str) :
  matches_at PATTERN suf <-> has_pattern_at suf.
Proof.
  unfold matches_at, has_pattern_at. split.
  - intros (w & post & c & -> & H).
    apply rsem_pattern in H as (num & a & b & H & _). eauto 8.
  - intros (w & post & num & a & b & -> & H).
    exists w, post, [(3%nat, b); (2%nat, a); (1%nat, num)]. split; trivial.
    apply rsem_pattern. eauto.
Qed.

(** ** The amount *)

Lemma split_dot_digits (ip : str) :
  forallb is_digit ip = true ->
  split_dot ip = (ip, None) /\
  forall fp, split_dot (ip ++ 46%N :: fp) = (ip, Some fp).
Proof.
  induction ip as [|x ip IH]; simpl; intros H; [auto|].
  apply andb_true_iff in H as [Hx H]. destruct (IH H) as [IH1 IH2].
  assert (Hd : N.eqb x 46 = false).
  { unfold is_digit, in_range in Hx. apply andb_true_iff in Hx as [H1 H2].
    apply N.leb_le in H1, H2. apply N.eqb_neq. lia. }
  rewrite Hd, IH1. split; trivial. intros fp. rewrite IH2. reflexivity.
Qed.

Lemma digits_fold_nonneg (ds : str) (acc : Z) :
  0 <= acc -> forallb is_digit ds = true ->
  0 <= fold_left (fun a d => 10 * a + (Z.of_N d - 48)) ds acc.
Proof.
  revert acc. induction ds as [|d ds IH]; cbn [fold_left forallb];
    intros acc Hacc H; trivial.
  apply andb_true_iff in H as [Hd H]. apply IH; trivial.
  unfold is_digit, in_range in Hd. apply andb_true_iff in Hd as [H1 H2].
  apply N.leb_le in H1, H2. lia.
Qed.

Lemma digits_value_nonneg (ds : str) :
  forallb is_digit ds = true -> 0 <= digits_value ds.
Proof. apply digits_fold_nonneg. lia. Qed.

(** A number of the pattern carries no sign, and [float] reads it as a
    non-negative amount. *)
Lemma float_number (num : str) :
  is_number num -> exists q, float num = Ok q /\ (0 <= q)%Q.
Proof.
  intros (ip & Hip & Hnum). unfold all_digits in Hip.
  apply andb_true_iff in Hip as [Hne Hip].
  destruct ip as [|x ip]; [discriminate|].
  assert (Hx : N.eqb x 45 = false /\ N.eqb x 43 = false).
  { simpl in Hip. apply andb_true_iff in Hip as [Hx _].
    unfold is_digit, in_range in Hx. apply andb_true_iff in Hx as [H1 H2].
    apply N.leb_le in H1, H2. split; apply N.eqb_neq; lia. }
  destruct Hx as [Hm Hp].
  destruct (split_dot_digits _ Hip) as [S1 S2].
  destruct Hnum as [->|(fp & Hfp & ->)].
  - exists (digits_value (x :: ip) # 1)%Q. unfold float. rewrite Hm, Hp.
    unfold decimal_value. rewrite S1. unfold all_digits. rewrite Hip. simpl.
    split; trivial. unfold Qle. simpl.
    pose proof (digits_value_nonneg (x :: ip) Hip). lia.
  - exists (digits_value ((x :: ip) ++ fp) # Pos.pow 10 (Pos.of_nat (length fp)))%Q.
    unfold float. change ((x :: ip) ++ 46%N :: fp) with (x :: (ip ++ 46%N :: fp)).
    cbv beta iota zeta. rewrite Hm, Hp.
    unfold decimal_value. change (x :: ip ++ 46%N :: fp) with ((x :: ip) ++ 46%N :: fp).
    rewrite S2. unfold all_digits in *. rewrite Hip, Hfp.
    split; trivial. unfold Qle. cbn [Qnum Qden].
    apply andb_true_iff in Hfp as [_ Hfp].
    pose proof (digits_value_nonneg ((x :: ip) ++ fp)) as G.
    rewrite forallb_app, Hip, Hfp in G. specialize (G eq_refl). lia.
Qed.

(** ** The parser on a match *)

Lemma search_pattern_some (s : str) (m : caps) :
  search PATTERN s = Some m ->
  exists pre w post num a b,
    s = pre ++ w ++ post /\ pattern_word w num a b /\
    m = [(3%nat, b); (2%nat, a); (1%nat, num)] /\
    (forall pre1 suf1, s = pre1 ++ suf1 -> (length pre1 < length pre)%nat ->
       ~ has_pattern_at suf1).
Proof.
  intros H. apply search_some in H as (pre & w & post & Hs & H & Hleft).
  apply rsem_pattern in H as (num & a & b & H & ->).
  exists pre, w, post, num, a, b. repeat split; trivial.
  intros pre1 suf1 H1 H2. rewrite <- matches_at_pattern. eauto.
Qed.

Lemma search_pattern_none (s : str) :
  search PATTERN s = None <->
  (forall pre suf, s = pre ++ suf -> ~ has_pattern_at suf).
Proof.
  rewrite search_none. split; intros H pre suf Hs.
  - rewrite <- matches_at_pattern. eauto.
  - rewrite matches_at_pattern. eauto.
Qed.

Lemma parse_nl_input_cases (text : str) :
  (search PATTERN (strip text) = None /\
   parse_nl_input text = Raise (ValueError PARSE_MSG)) \/
  (exists pre w post num a b,
     strip text = pre ++ w ++ post /\ pattern_word w num a b /\
     (forall pre1 suf1, strip text = pre1 ++ suf1 ->
        (length pre1 < length pre)%nat -> ~ has_pattern_at suf1) /\
     search PATTERN (strip text) = Some [(3%nat, b); (2%nat, a); (1%nat, num)] /\
     parse_nl_input text = resolve num a b).
Proof.
  unfold parse_nl_input. destruct (search PATTERN (strip text)) as [m|] eqn:E.
  - right. apply search_pattern_some in E as (pre & w & post & num & a & b & Hs & Hw & -> & Hleft).
    exists pre, w, post, num, a, b. repeat split; trivial.
  - left. auto.
Qed.

Lemma in_lstrip (x : char) (s : str) : In x (lstrip s) -> In x s.
Proof.
  induction s as [|y s IH]; simpl; trivial.
  destruct (isspace y); auto.
Qed.

Lemma in_strip (x : char) (s : str) : In x (strip s) -> In x s.
Proof.
  unfold strip, rstrip. intros H.
  apply in_rev, in_lstrip, in_rev in H. apply in_lstrip. exact H.
Qed.

(** Upper-casing a letter of the class gives a capital ASCII letter, unless
    the letter is U+0130 or U+212A. *)
Lemma upper_char_AZ (x : char) :
  is_letter_ic x = true -> x <> I_DOT -> x <> KELVIN ->
  is_AZ (upper_char x) = true.
Proof.
  unfold is_letter_ic, upper_char, is_AZ, is_az, in_range, I_DOT, KELVIN,
    DOTLESS_I, LONG_S.
  intros H H1 H2.
  repeat (apply orb_true_iff in H as [H|H]).
  - apply andb_true_iff in H as [Ha Hb]. apply N.leb_le in Ha, Hb.
    replace (97 <=? x)%N with false by (symmetry; apply N.leb_gt; lia).
    simpl. destruct (N.eqb_spec x 305); [lia|]. destruct (N.eqb_spec x 383); [lia|].
    apply andb_true_iff. split; apply N.leb_le; lia.
  - rewrite H. apply andb_true_iff in H as [Ha Hb]. apply N.leb_le in Ha, Hb.
    apply andb_true_iff. split; apply N.leb_le; lia.
  - apply N.eqb_eq in H. contradiction.
  - apply N.eqb_eq in H. subst x. reflexivity.
  - apply N.eqb_eq in H. subst x. reflexivity.
  - apply N.eqb_eq in H. contradiction.
Qed.

Lemma upper_char_of_AZ (x : char) : is_AZ x = true -> upper_char x = x.
Proof.
  unfold upper_char, is_AZ, is_az, in_range, DOTLESS_I, LONG_S. intros H.
  apply andb_true_iff in H as [Ha Hb]. apply N.leb_le in Ha, Hb.
  replace (97 <=? x)%N with false by (symmetry; apply N.leb_gt; lia). simpl.
  destruct (N.eqb_spec x 305); [lia|]. destruct (N.eqb_spec x 383); [lia|].
  reflexivity.
Qed.

Lemma filter_all (A : Type) (p : A -> bool) (l : list A) :
  forallb p l = true -> filter p l = l.
Proof.
  induction l as [|x l IH]; simpl; trivial. intros H.
  apply andb_true_iff in H as [Hx H]. rewrite Hx, IH; trivial.
Qed.

(** On a token of capital ASCII letters, [word_to_currency_code] fails only
    when the token is not three letters long. *)
Lemma word_to_currency_code_None (a : str) :
  forallb is_AZ a = true -> word_to_currency_code a = None ->
  length a <> 3%nat.
Proof.
  intros HA. unfold word_to_currency_code.
  assert (Hup : upper a = a).
  { unfold upper. induction a as [|x a IH]; simpl in *; trivial.
    apply andb_true_iff in HA as [Hx HA]. rewrite upper_char_of_AZ, IH; trivial. }
  rewrite Hup, filter_all by exact HA.
  destruct (dict_get a COMMON_CURY); [discriminate|].
  destruct (Nat.eqb_spec (length a) 3); [discriminate|auto].
Qed.

Lemma upper_token_AZ (text t : str) :
  (forall x, In x text -> x <> I_DOT /\ x <> KELVIN) ->
  (forall x, In x t -> In x text) ->
  forallb is_letter_ic t = true ->
  forallb is_AZ (upper t) = true.
Proof.
  intros Htext Hin Hl. unfold upper. rewrite forallb_forall in *.
  intros y Hy. apply in_map_iff in Hy as (x & <- & Hx).
  destruct (Htext x (Hin x Hx)). apply upper_char_AZ; auto.
Qed.

(** ** The parser: claims *)

(** C3 (as amended).  [parse_nl_input] searches the stripped text, without
    anchoring, for: a decimal number, optional white space, a token of three
    or more letters, optional white space, [to] or [in] in any case,
    optional white space, a second token of three or more letters.  When no
    position of the text starts such a word it raises the [ValueError] with
    the format hint; otherwise the leftmost position that starts one gives
    the captured number and tokens, the text around the match is ignored and
    the result is what the code computes from these three captures. *)
Theorem parse_nl_input_searches_pattern (text : str) :
  ((forall pre suf, strip text = pre ++ suf -> ~ has_pattern_at suf) ->
   parse_nl_input text = Raise (ValueError PARSE_MSG)) /\
  (forall pre0 suf0, strip text = pre0 ++ suf0 -> has_pattern_at suf0 ->
   exists pre w post num a b,
     strip text = pre ++ w ++ post /\ pattern_word w num a b /\
     (forall pre1 suf1, strip text = pre1 ++ suf1 ->
        (length pre1 < length pre)%nat -> ~ has_pattern_at suf1) /\
     parse_nl_input text = resolve num a b).
Proof.
  destruct (parse_nl_input_cases text)
    as [[Hs Hp]|(pre & w & post & num & a & b & Hs & Hw & Hleft & Hm & Hp)].
  - split; [auto|]. intros pre0 suf0 H0 H1. exfalso.
    rewrite search_pattern_none in Hs. exact (Hs _ _ H0 H1).
  - split.
    + intros Hno. exfalso. apply (Hno pre (w ++ post) Hs).
      exists w, post, num, a, b. auto.
    + intros _ _ _ _. exists pre, w, post, num, a, b. auto.
Qed.

Lemma parse_nl_input_searches_pattern_witness :
  parse_nl_input (lit "hello world") = Raise (ValueError PARSE_MSG).
Proof.
  apply (proj1 (parse_nl_input_searches_pattern (lit "hello world"))).
  apply search_pattern_none. vm_compute. reflexivity.
Defined.

(** C3, as the claim words the pattern (white space required around
    [to]/[in], tokens of one or more letters): the text [500 usdtoeur] holds
    no word of that pattern at any position, and is parsed all the same;
    and in [12 ab to usd 5 usd to eur] the first word of that pattern is
    [12 ab to usd], while the parser takes its captures from
    [5 usd to eur]. *)
Lemma spec_pattern_counterexample :
  ((forall pre suf, strip (lit "500 usdtoeur") = pre ++ suf ->
      ~ matches_at SPEC_PATTERN suf) /\
   parse_nl_input (lit "500 usdtoeur") = Ok ((500 # 1)%Q, lit "USD", lit "EUR")) /\
  (search SPEC_PATTERN (strip (lit "12 ab to usd 5 usd to eur"))
   = Some [(3%nat, lit "usd"); (2%nat, lit "ab"); (1%nat, lit "12")] /\
   parse_nl_input (lit "12 ab to usd 5 usd to eur")
   = Ok ((5 # 1)%Q, lit "USD", lit "EUR")).
Proof.
  split; split.
  - apply search_none. vm_compute. reflexivity.
  - vm_compute. reflexivity.
  - vm_compute. reflexivity.
  - vm_compute. reflexivity.
Qed.

(** C8.  The three examples of the specification, the last one through the
    entry [POUNDS] of the currency-name dictionary. *)
Theorem parse_nl_input_examples :
  parse_nl_input (lit "convert 500 USD to PKR")
    = Ok ((500 # 1)%Q, lit "USD", lit "PKR") /\
  parse_nl_input (lit "1000 eur in usd")
    = Ok ((1000 # 1)%Q, lit "EUR", lit "USD") /\
  parse_nl_input (lit "2500 pounds to usd")
    = Ok ((2500 # 1)%Q, lit "GBP", lit "USD") /\
  dict_get (lit "POUNDS") COMMON_CURY = Some (lit "GBP") /\
  word_to_currency_code (upper (lit "pounds")) = Some (lit "GBP").
Proof. repeat split; vm_compute; reflexivity. Qed.

(** C9 (as amended).  On a text that holds neither U+0130 nor U+212A, the
    trailing three-letter fallback of [parse_nl_input] never decides the
    result: the parser agrees with the variant that has no such branch. *)
Theorem fallback_unused_without_idot_kelvin (text : str) :
  forallb (fun x => negb (N.eqb x I_DOT || N.eqb x KELVIN)) text = true ->
  parse_nl_input text = parse_nl_input_no_fallback text.
Proof.
  intros Htext.
  assert (Hchars : forall x, In x text -> x <> I_DOT /\ x <> KELVIN).
  { rewrite forallb_forall in Htext. intros x Hx. specialize (Htext x Hx).
    apply negb_true_iff, orb_false_iff in Htext as [H1 H2].
    apply N.eqb_neq in H1, H2. auto. }
  destruct (parse_nl_input_cases text)
    as [[Hs Hp]|(pre & w & post & num & a & b & Hs & Hw & _ & Hm & Hp)].
  - rewrite Hp. unfold parse_nl_input_no_fallback. rewrite Hs. reflexivity.
  - rewrite Hp. unfold parse_nl_input_no_fallback. rewrite Hm.
    change (mgroup 1 [(3%nat, b); (2%nat, a); (1%nat, num)]) with num.
    change (mgroup 2 [(3%nat, b); (2%nat, a); (1%nat, num)]) with a.
    change (mgroup 3 [(3%nat, b); (2%nat, a); (1%nat, num)]) with b.
    unfold resolve. destruct (float num) as [amt|e]; trivial.
    destruct Hw as (ws1 & ws2 & kw & ws3 & Hw & _ & _ & [_ Ha] & _ & _ & _ & [_ Hb]).
    assert (HA : forallb is_AZ (upper a) = true).
    { apply (upper_token_AZ text); trivial. intros x Hx. apply in_strip.
      rewrite Hs, Hw. repeat rewrite in_app_iff. tauto. }
    assert (HB : forallb is_AZ (upper b) = true).
    { apply (upper_token_AZ text); trivial. intros x Hx. apply in_strip.
      rewrite Hs, Hw. repeat rewrite in_app_iff. tauto. }
    destruct (word_to_currency_code (upper a)) as [ac|] eqn:Ea.
    + destruct (word_to_currency_code (upper b)) as [bc|] eqn:Eb; trivial.
      apply (word_to_currency_code_None _ HB), Nat.eqb_neq in Eb.
      rewrite Eb, andb_false_r. reflexivity.
    + apply (word_to_currency_code_None _ HA), Nat.eqb_neq in Ea.
      rewrite Ea. reflexivity.
Qed.

Lemma fallback_unused_without_idot_kelvin_witness :
  parse_nl_input (lit "12 abc to usd")
  = parse_nl_input_no_fallback (lit "12 abc to usd").
Proof.
  apply (fallback_unused_without_idot_kelvin (lit "12 abc to usd")).
  vm_compute. reflexivity.
Defined.

(** C9, as claimed for every input: on [5 abK to usd], with K the Kelvin
    sign U+212A, the token [ABK] is three characters long and
    [word_to_currency_code] returns [None] for it, so the fallback branch
    returns a result that the variant without it does not. *)
Lemma fallback_reached_on_kelvin :
  let text := lit "5 ab" ++ [KELVIN] ++ lit " to usd" in
  parse_nl_input text = Ok ((5 # 1)%Q, lit "AB" ++ [KELVIN], lit "USD") /\
  parse_nl_input_no_fallback text = Raise (ValueError PARSE_MSG) /\
  word_to_currency_code (lit "AB" ++ [KELVIN]) = None /\
  length (lit "AB" ++ [KELVIN]) = 3%nat /\
  parse_nl_input text <> parse_nl_input_no_fallback text.
Proof. vm_compute. repeat split; discriminate. Qed.

(** C10.  The number the pattern captures has no sign: every amount
    [parse_nl_input] returns is the value of a literal [digits] or
    [digits.digits] and is not negative; on [-500 usd to eur] the minus
    sign is skipped and the result is (500, USD, EUR). *)
Theorem parse_amount_nonneg :
  (forall text amt a b, parse_nl_input text = Ok (amt, a, b) ->
     (0 <= amt)%Q /\ exists num, is_number num /\ float num = Ok amt) /\
  parse_nl_input (lit "-500 usd to eur") = Ok ((500 # 1)%Q, lit "USD", lit "EUR").
Proof.
  split; [|vm_compute; reflexivity].
  intros text amt a b H.
  destruct (parse_nl_input_cases text)
    as [[_ Hp]|(pre & w & post & num & ta & tb & _ & Hw & _ & _ & Hp)].
  - congruence.
  - rewrite Hp in H. unfold resolve in H.
    destruct Hw as (ws1 & ws2 & kw & ws3 & _ & Hn & _).
    destruct (float_number num Hn) as (q & Hq & Hpos).
    rewrite Hq in H.
    assert (amt = q).
    { destruct (word_to_currency_code (upper ta)), (word_to_currency_code (upper tb));
        try destruct (_ && _)%bool; congruence. }
    subst q. split; trivial. exists num. auto.
Qed.

Lemma parse_amount_nonneg_witness : (0 <= 500 # 1)%Q.
Proof.
  exact (proj1 (proj1 parse_amount_nonneg (lit "-500 usd to eur") _ _ _ eq_refl)).
Defined.

(** ** Dates: the order of ISO strings is the order of days *)

Lemma days_before_year_succ (y : Z) :
  days_before_year (y + 1)
  = days_before_year y + 365 + (if is_leap y then 1 else 0).
Proof.
  unfold days_before_year, is_leap. cbv zeta.
  replace (y + 1 - 1) with y by lia.
  destruct (Z.eqb_spec (y mod 4) 0), (Z.eqb_spec (y mod 100) 0),
    (Z.eqb_spec (y mod 400) 0); cbn [negb andb orb];
    Z.div_mod_to_equations; lia.
Qed.

Lemma days_before_year_mono (y y' : Z) :
  y <= y' -> days_before_year y <= days_before_year y'.
Proof.
  unfold days_before_year. cbv zeta. intros. Z.div_mod_to_equations. lia.
Qed.

Ltac eval_months :=
  cbv [DAYS_BEFORE_MONTH Z.eqb Z.ltb Z.compare Pos.eqb Pos.compare
       Pos.compare_cont orb andb].

Ltac month_cases m :=
  let H := fresh in
  assert (H : m = 1 \/ m = 2 \/ m = 3 \/ m = 4 \/ m = 5 \/ m = 6 \/ m = 7
              \/ m = 8 \/ m = 9 \/ m = 10 \/ m = 11 \/ m = 12) by lia;
  repeat (destruct H as [H|H]; [subst m|]); [..|subst m].

(** A valid day of the year lies within its year. *)
Lemma day_of_year_bound (y m d : Z) :
  1 <= m <= 12 -> 1 <= d <= days_in_month y m ->
  1 <= days_before_month y m + d <= 365 + (if is_leap y then 1 else 0).
Proof.
  intros Hm Hd. unfold days_before_month, days_in_month in *.
  revert Hd. month_cases m; destruct (is_leap y); eval_months; lia.
Qed.

Lemma day_of_year_lt (y m d m' d' : Z) :
  1 <= m <= 12 -> 1 <= d <= days_in_month y m ->
  1 <= m' <= 12 -> 1 <= d' <= days_in_month y m' ->
  m < m' ->
  days_before_month y m + d < days_before_month y m' + d'.
Proof.
  intros Hm Hd Hm' Hd' Hlt. unfold days_before_month, days_in_month in *.
  revert Hd Hd'.
  month_cases m; month_cases m'; try lia; destruct (is_leap y); eval_months; lia.
Qed.

(** [ymd2ord] is increasing in the order of (year, month, day). *)
Lemma ymd2ord_lt (y m d y' m' d' : Z) :
  1 <= m <= 12 -> 1 <= d <= days_in_month y m ->
  1 <= m' <= 12 -> 1 <= d' <= days_in_month y' m' ->
  y < y' \/ (y = y' /\ (m < m' \/ (m = m' /\ d < d'))) ->
  ymd2ord y m d < ymd2ord y' m' d'.
Proof.
  intros Hm Hd Hm' Hd' [Hy|[<- [Hlt|[<- Hlt]]]]; unfold ymd2ord.
  - pose proof (day_of_year_bound y m d Hm Hd).
    pose proof (day_of_year_bound y' m' d' Hm' Hd').
    pose proof (days_before_year_succ y).
    pose proof (days_before_year_mono (y + 1) y'). lia.
  - pose proof (day_of_year_lt y m d m' d' Hm Hd Hm' Hd' Hlt). lia.
  - lia.
Qed.

Lemma is_digit_bounds (x : char) :
  is_digit x = true -> 0 <= digit_of x <= 9.
Proof.
  unfold is_digit, in_range, digit_of. intros H.
  apply andb_true_iff in H as [H1 H2]. apply N.leb_le in H1, H2. lia.
Qed.

(** The strings [fromisoformat] accepts. *)
Lemma fromisoformat_inv (s : str) (n : date) :
  fromisoformat s = Ok n ->
  exists y1 y2 y3 y4 m1 m2 d1 d2,
    s = [y1; y2; y3; y4; 45%N; m1; m2; 45%N; d1; d2] /\
    Forall (fun x => 0 <= digit_of x <= 9) [y1; y2; y3; y4; m1; m2; d1; d2] /\
    let y := 1000 * digit_of y1 + 100 * digit_of y2
             + 10 * digit_of y3 + digit_of y4 in
    let m := 10 * digit_of m1 + digit_of m2 in
    let d := 10 * digit_of d1 + digit_of d2 in
    1 <= y /\ 1 <= m <= 12 /\ 1 <= d <= days_in_month y m /\
    n = ymd2ord y m d.
Proof.
  unfold fromisoformat.
  destruct s as [|y1 [|y2 [|y3 [|y4 [|h1 [|m1 [|m2 [|h2 [|d1 [|d2 [|]]]]]]]]]]];
    try discriminate.
  destruct (forallb _ _ && _ && _)%bool eqn:E; [|discriminate].
  apply andb_true_iff in E as [E H2]. apply andb_true_iff in E as [E H1].
  apply N.eqb_eq in H1, H2. subst h1 h2.
  cbn [forallb] in E. repeat (apply andb_true_iff in E as [? E]).
  match goal with |- (if ?c then _ else _) = _ -> _ => destruct c eqn:V end;
    [|discriminate].
  intros [= <-].
  repeat (apply andb_true_iff in V as [V ?]).
  repeat match goal with H : (_ <=? _) = true |- _ => apply Z.leb_le in H end.
  exists y1, y2, y3, y4, m1, m2, d1, d2. split; trivial. split.
  - repeat constructor; apply is_digit_bounds; assumption.
  - cbv zeta. repeat split; trivial.
Qed.

(** Two distinct ISO dates in code point order are in calendar order. *)
Lemma iso_order (s1 s2 : str) (n1 n2 : date) :
  fromisoformat s1 = Ok n1 -> fromisoformat s2 = Ok n2 ->
  str_leb s1 s2 = true -> s1 <> s2 -> n1 < n2.
Proof.
  intros H1 H2 Hle Hne.
  apply fromisoformat_inv in H1
    as (a1 & a2 & a3 & a4 & a5 & a6 & a7 & a8 & -> & F1 & G1).
  apply fromisoformat_inv in H2
    as (b1 & b2 & b3 & b4 & b5 & b6 & b7 & b8 & -> & F2 & G2).
  cbv zeta in G1, G2.
  destruct G1 as (_ & Hm1 & Hd1 & ->). destruct G2 as (_ & Hm2 & Hd2 & ->).
  repeat match goal with H : Forall _ (_ :: _) |- _ => inversion_clear H end.
  unfold str_leb in Hle. cbn [str_compare] in Hle.
  change (45 ?= 45)%N with Eq in Hle. cbv iota in Hle.
  unfold digit_of in *.
  repeat match type of Hle with
         | context [(?a ?= ?b)%N] =>
             destruct (N.compare_spec a b) as [->| |];
             [ | apply ymd2ord_lt; trivial; lia | discriminate ]
         end.
  congruence.
Qed.

(** ** [strftime] and [fromisoformat] *)

Lemma month_day_checked (leapyear : bool) (n : Z) :
  0 <= n <= 364 -> month_day_ok leapyear n = true.
Proof.
  intros Hn.
  assert (H : forallb (fun i => month_day_ok leapyear (Z.of_nat i)) (seq 0 365)
              = true) by (destruct leapyear; vm_compute; reflexivity).
  rewrite forallb_forall in H. specialize (H (Z.to_nat n)).
  rewrite Z2Nat.id in H by lia. apply H. apply in_seq. lia.
Qed.

Lemma is_leap_cycle (n400 n100 n4 n1 : Z) :
  0 <= n100 <= 3 -> 0 <= n4 <= 24 -> 0 <= n1 <= 3 ->
  is_leap (n400 * 400 + 1 + n100 * 100 + n4 * 4 + n1)
  = (n1 =? 3) && (negb (n4 =? 24) || (n100 =? 3)).
Proof.
  intros H100 H4 H1. unfold is_leap.
  destruct (Z.eqb_spec n1 3), (Z.eqb_spec n4 24), (Z.eqb_spec n100 3);
    cbn [negb andb orb];
    repeat match goal with
           | |- context [?a mod ?b =? 0] => destruct (Z.eqb_spec (a mod b) 0)
           end; cbn [negb andb orb]; trivial; exfalso;
    Z.div_mod_to_equations; lia.
Qed.

Lemma days_before_year_cycle (n400 n100 n4 n1 : Z) :
  0 <= n100 <= 3 -> 0 <= n4 <= 24 -> 0 <= n1 <= 3 ->
  days_before_year (n400 * 400 + 1 + n100 * 100 + n4 * 4 + n1)
  = 146097 * n400 + 36524 * n100 + 1461 * n4 + 365 * n1.
Proof.
  intros H100 H4 H1. unfold days_before_year. cbv zeta.
  Z.div_mod_to_equations. lia.
Qed.

Lemma days_in_month_leap (y m : Z) :
  days_in_month y m
  = days_in_month 1 m + (if (m =? 2) && is_leap y then 1 else 0).
Proof.
  unfold days_in_month. change (is_leap 1) with false.
  destruct (m =? 2), (is_leap y); cbn [andb]; lia.
Qed.

(** [_ord2ymd] inverts [_ymd2ord] on the ordinals of the years 1 to 9999. *)
Lemma ord2ymd_spec (n : date) :
  1 <= n <= MAX_ORDINAL ->
  exists y m d,
    ord2ymd n = (y, m, d) /\ 1 <= y <= 9999 /\ 1 <= m <= 12 /\
    1 <= d <= days_in_month y m /\ ymd2ord y m d = n.
Proof.
  unfold MAX_ORDINAL. intros Hn. unfold ord2ymd. cbv zeta.
  set (n0 := n - 1).
  set (n400 := n0 / 146097). set (r1 := n0 mod 146097).
  set (n100 := r1 / 36524). set (r2 := r1 mod 36524).
  set (n4 := r2 / 1461). set (r3 := r2 mod 1461).
  set (n1 := r3 / 365). set (r4 := r3 mod 365).
  assert (E1 : n0 = 146097 * n400 + r1 /\ 0 <= r1 < 146097)
    by (subst n400 r1; Z.div_mod_to_equations; lia).
  assert (E2 : r1 = 36524 * n100 + r2 /\ 0 <= r2 < 36524)
    by (subst n100 r2; Z.div_mod_to_equations; lia).
  assert (E3 : r2 = 1461 * n4 + r3 /\ 0 <= r3 < 1461)
    by (subst n4 r3; Z.div_mod_to_equations; lia).
  assert (E4 : r3 = 365 * n1 + r4 /\ 0 <= r4 < 365)
    by (subst n1 r4; Z.div_mod_to_equations; lia).
  assert (E0 : n0 = n - 1) by reflexivity.
  clearbody n0 n400 r1 n100 r2 n4 r3 n1 r4.
  destruct (Z.eqb_spec n1 4) as [N1|N1]; [|destruct (Z.eqb_spec n100 4) as [N100|N100]];
    cbn [orb].
  - exists (n400 * 400 + 1 + n100 * 100 + n4 * 4 + n1 - 1), 12, 31.
    replace (n400 * 400 + 1 + n100 * 100 + n4 * 4 + n1 - 1)
      with (n400 * 400 + 1 + n100 * 100 + n4 * 4 + 3) by lia.
    split; trivial. unfold ymd2ord, days_before_month.
    rewrite days_in_month_leap, is_leap_cycle, days_before_year_cycle by lia.
    replace (n4 =? 24) with false by (symmetry; apply Z.eqb_neq; lia).
    change (days_in_month 1 12) with 31. eval_months. cbn [negb].
    assert (0 <= n400 <= 24 /\ 0 <= n100 <= 3 /\ 0 <= n4 <= 23) by lia. lia.
  - exists (n400 * 400 + 1 + n100 * 100 + n4 * 4 + n1 - 1), 12, 31.
    replace (n400 * 400 + 1 + n100 * 100 + n4 * 4 + n1 - 1)
      with (n400 * 400 + 1 + 3 * 100 + 24 * 4 + 3) by lia.
    split; trivial. unfold ymd2ord, days_before_month.
    rewrite days_in_month_leap, is_leap_cycle, days_before_year_cycle by lia.
    change (days_in_month 1 12) with 31. eval_months. cbn [negb].
    assert (0 <= n400 <= 23) by lia. lia.
  - pose proof (month_day_checked ((n1 =? 3) && (negb (n4 =? 24) || (n100 =? 3))) r4)
      as Hmd.
    unfold month_day_ok in Hmd.
    destruct (month_day _ r4) as [m d].
    specialize (Hmd ltac:(lia)).
    repeat (apply andb_true_iff in Hmd as [Hmd ?]).
    repeat match goal with
           | H : (_ <=? _) = true |- _ => apply Z.leb_le in H
           | H : (_ =? _) = true |- _ => apply Z.eqb_eq in H
           end.
    exists (n400 * 400 + 1 + n100 * 100 + n4 * 4 + n1), m, d.
    split; trivial. unfold ymd2ord, days_before_month.
    rewrite days_in_month_leap, is_leap_cycle, days_before_year_cycle by lia.
    assert (0 <= n400 <= 24 /\ 0 <= n100 <= 3 /\ 0 <= n4 <= 24 /\ 0 <= n1 <= 3)
      by lia.
    assert (n400 = 24 -> n100 = 3 -> n4 = 24 -> n1 <= 2) by lia.
    repeat split; try lia.
Qed.

Lemma digit_char_digit (x : Z) :
  is_digit (digit_char x) = true /\ digit_of (digit_char x) = x mod 10.
Proof.
  unfold is_digit, in_range, digit_char, digit_of.
  pose proof (Z.mod_pos_bound x 10 ltac:(lia)).
  split; [apply andb_true_iff; split; apply N.leb_le|]; lia.
Qed.

Lemma days_in_month_max (y m : Z) : days_in_month y m <= 31.
Proof.
  unfold days_in_month.
  destruct (m =? 2); [destruct (is_leap y); lia|].
  destruct ((m =? 4) || (m =? 6) || (m =? 9) || (m =? 11)); lia.
Qed.

(** The days from 1000-01-01 on are those of the years of four digits. *)
Lemma ord2ymd_four_digits (n : date) :
  MIN_4DIGIT_ORDINAL <= n <= MAX_ORDINAL ->
  exists y m d,
    ord2ymd n = (y, m, d) /\ 1000 <= y <= 9999 /\ 1 <= m <= 12 /\
    1 <= d <= days_in_month y m /\ ymd2ord y m d = n.
Proof.
  intros Hn.
  destruct (ord2ymd_spec n ltac:(unfold MIN_4DIGIT_ORDINAL in Hn; lia))
    as (y & m & d & E & Hy & Hm & Hd & Ho).
  exists y, m, d. repeat split; trivial; try lia.
  destruct (Z.le_gt_cases 1000 y) as [|Hlt]; trivial. exfalso.
  pose proof (day_of_year_bound y m d Hm Hd) as Hdoy.
  pose proof (days_before_year_succ y) as Hsucc.
  pose proof (days_before_year_mono (y + 1) 1000 ltac:(lia)) as Hhi.
  change (days_before_year 1000) with 364877 in Hhi.
  unfold ymd2ord in Ho. unfold MIN_4DIGIT_ORDINAL in Hn. lia.
Qed.

(** Reading back what [strftime] writes gives the day written, for the
    days of the years of four digits. *)
Lemma strftime_fromisoformat (n : date) :
  MIN_4DIGIT_ORDINAL <= n <= MAX_ORDINAL -> fromisoformat (strftime n) = Ok n.
Proof.
  intros Hn.
  destruct (ord2ymd_four_digits n Hn) as (y & m & d & E & Hy & Hm & Hd & Ho).
  unfold strftime. rewrite E. unfold date_text, year_text.
  replace (y <? 10) with false by (symmetry; apply Z.ltb_ge; lia).
  replace (y <? 100) with false by (symmetry; apply Z.ltb_ge; lia).
  replace (y <? 1000) with false by (symmetry; apply Z.ltb_ge; lia).
  cbn [Datatypes.app].
  unfold fromisoformat. cbn [forallb].
  rewrite !(proj1 (digit_char_digit _)), !(proj2 (digit_char_digit _)).
  change (45 =? 45)%N with true. cbn [andb].
  pose proof (days_in_month_max y m) as Hmax.
  replace (1000 * ((y / 1000) mod 10) + 100 * ((y / 100) mod 10)
           + 10 * ((y / 10) mod 10) + y mod 10) with y
    by (Z.div_mod_to_equations; lia).
  replace (10 * ((m / 10) mod 10) + m mod 10) with m
    by (Z.div_mod_to_equations; lia).
  replace (10 * ((d / 10) mod 10) + d mod 10) with d
    by (Z.div_mod_to_equations; lia).
  replace (1 <=? y) with true by (symmetry; apply Z.leb_le; lia).
  replace (1 <=? m) with true by (symmetry; apply Z.leb_le; lia).
  replace (m <=? 12) with true by (symmetry; apply Z.leb_le; lia).
  replace (1 <=? d) with true by (symmetry; apply Z.leb_le; lia).
  replace (d <=? days_in_month y m) with true by (symmetry; apply Z.leb_le; lia).
  cbn [andb]. rewrite Ho. reflexivity.
Qed.



(** ** [sorted] on the items of the rates object *)

Lemma str_compare_Gt (a b : str) :
  str_compare a b = Gt -> str_compare b a = Lt.
Proof.
  revert b. induction a as [|x a IH]; intros [|y b]; simpl; try discriminate;
    trivial.
  rewrite (N.compare_antisym x y).
  destruct (N.compare x y); simpl; auto; discriminate.
Qed.

Lemma str_leb_total (a b : str) : str_leb a b = false -> str_leb b a = true.
Proof.
  unfold str_leb. destruct (str_compare a b) eqn:E; try discriminate.
  rewrite (str_compare_Gt _ _ E). reflexivity.
Qed.

Lemma insert_item_perm (A : Type) (x : str * A) (l : list (str * A)) :
  Permutation (insert_item x l) (x :: l).
Proof.
  induction l as [|y l IH]; simpl; [reflexivity|].
  destruct (str_leb (fst x) (fst y)); [reflexivity|].
  rewrite IH. apply perm_swap.
Qed.

Lemma sorted_items_perm (A : Type) (l : list (str * A)) :
  Permutation (sorted_items l) l.
Proof.
  induction l as [|x l IH]; simpl; [reflexivity|].
  rewrite insert_item_perm. auto.
Qed.

Lemma insert_item_sorted (A : Type) (x : str * A) (l : list (str * A)) :
  Sorted (@key_le A) l -> Sorted (@key_le A) (insert_item x l).
Proof.
  induction 1 as [|y l Hs IH Hd]; simpl; [repeat constructor|].
  destruct (str_leb (fst x) (fst y)) eqn:E.
  - repeat constructor; assumption.
  - constructor; [exact IH|].
    destruct Hd as [|z l Hz]; simpl.
    + constructor. apply str_leb_total. exact E.
    + destruct (str_leb (fst x) (fst z)); constructor; trivial.
      apply str_leb_total. exact E.
Qed.

Lemma sorted_items_sorted (A : Type) (l : list (str * A)) :
  Sorted (@key_le A) (sorted_items l).
Proof.
  induction l as [|x l IH]; simpl; [constructor|].
  apply insert_item_sorted. exact IH.
Qed.

Lemma build_to_datetime (target : str) (items : list (str * json)) :
  Forall is_rate_row items ->
  exists recs, build_records target items = Ok recs /\
               to_datetime recs = Ok (map (row_point target) items).
Proof.
  induction 1 as [|[d v] items [(n & Hn) (o & Ho)] _ (recs & Hb & Ht)]; simpl.
  - exists []. auto.
  - simpl in Hn, Ho. subst v. rewrite Hb.
    exists ((d, dict_get target o) :: recs). split; trivial.
    simpl. rewrite Hn, Ht. unfold row_point. simpl. rewrite Hn. reflexivity.
Qed.

Lemma sorted_points (target : str) (l : list (str * json)) :
  Sorted (@key_le json) l -> NoDup (map fst l) -> Forall is_rate_row l ->
  Sorted Z.lt (map pt_date (map (row_point target) l)).
Proof.
  induction 1 as [|x l Hs IH Hd]; simpl; intros Hnd Hrows; [constructor|].
  inversion_clear Hnd as [|? ? Hnotin Hnd']. inversion_clear Hrows as [|? ? Hx Hl].
  constructor; [auto|].
  destruct Hd as [|y l Hxy]; simpl; constructor.
  inversion_clear Hl as [|? ? Hy _].
  destruct Hx as [(n1 & H1) _], Hy as [(n2 & H2) _].
  rewrite H1, H2. apply (iso_order (fst x) (fst y)); trivial.
  intros E. apply Hnotin. simpl. auto.
Qed.

(** ** The provider calls: claims *)

Lemma get_json_object (r : request) (w : world) (status : Z) (j : json)
      (rest : list outcome) :
  pending w = Response status (Some j) :: rest ->
  is_error_status status = false ->
  get_json r w = (Ok j, mkWorld rest (sent w ++ [r])).
Proof.
  intros Hp Hs. unfold get_json, requests_get. rewrite Hp, Hs. reflexivity.
Qed.

Lemma get_json_sent (r : request) (w : world) :
  sent (snd (get_json r w)) = sent w ++ [r].
Proof.
  unfold get_json, requests_get.
  destruct (pending w) as [|[e|status [j|]] rest]; simpl;
    try destruct (is_error_status status); reflexivity.
Qed.

(** C2 (as amended).  When the provider answers with a status that
    [raise_for_status] accepts and a JSON object that lacks the expected
    field, no operation fails: [fetch_symbols] (field [symbols]) and
    [fetch_latest] (field [rates]) return the empty mapping, and
    [fetch_timeseries] (field [rates]) returns the empty frame. *)
Theorem missing_field_gives_empty (w : world) (status : Z)
        (o : list (str * json)) (rest : list outcome) :
  pending w = Response status (Some (JObj o)) :: rest ->
  is_error_status status = false ->
  (dict_get (lit "symbols") o = None -> fst (fetch_symbols w) = Ok (JObj [])) /\
  (dict_get (lit "rates") o = None ->
     (forall base, fst (fetch_latest base w) = Ok (JObj [])) /\
     (forall base target start_date end_date sd ed,
        fromisoformat start_date = Ok sd -> fromisoformat end_date = Ok ed ->
        fst (fetch_timeseries base target start_date end_date w) = Ok [])).
Proof.
  intros Hp Hs. split; [|intros Hk; split].
  - intros Hk. unfold fetch_symbols.
    rewrite (get_json_object _ w _ _ _ Hp Hs). unfold json_get.
    rewrite Hk. reflexivity.
  - intros base. unfold fetch_latest.
    rewrite (get_json_object _ w _ _ _ Hp Hs). unfold json_get.
    rewrite Hk. reflexivity.
  - intros base target start_date end_date sd ed Hsd Hed.
    unfold fetch_timeseries. rewrite Hsd, Hed.
    rewrite (get_json_object _ w _ _ _ Hp Hs). unfold json_get.
    rewrite Hk. reflexivity.
Qed.

Lemma missing_field_gives_empty_witness :
  let w := mkWorld [Response 200 (Some (JObj [(lit "success", JBool true)]))] [] in
  fst (fetch_symbols w) = Ok (JObj []).
Proof.
  intros w.
  apply (proj1 (missing_field_gives_empty w 200
                  [(lit "success", JBool true)] [] eq_refl eq_refl)).
  reflexivity.
Defined.

(** C2, as claimed: a 200 response whose body is the object
    [{"success": true}], without [symbols] and without [rates], makes no
    operation raise; each one returns a value. *)
Lemma missing_field_counterexample :
  let w := mkWorld [Response 200 (Some (JObj [(lit "success", JBool true)]))] [] in
  fst (fetch_symbols w) = Ok (JObj []) /\
  fst (fetch_latest (lit "USD") w) = Ok (JObj []) /\
  fst (fetch_timeseries (lit "USD") (lit "EUR")
         (lit "2024-01-01") (lit "2024-01-31") w) = Ok [] /\
  ~ (exists e, fst (fetch_symbols w) = Raise e).
Proof.
  vm_compute. repeat split. intros (e & H). discriminate.
Qed.

(** The one request of [fetch_timeseries], once both dates are read. *)
Lemma fetch_timeseries_sent
      (base target start_date end_date : str) (sd ed : date) (w : world) :
  fromisoformat start_date = Ok sd ->
  fromisoformat end_date = Ok ed ->
  sent (snd (fetch_timeseries base target start_date end_date w))
  = sent w ++ [timeseries_request base target
                 (if MAX_HISTORY_DAYS <? ed - sd
                  then strftime (ed - MAX_HISTORY_DAYS) else start_date)
                 end_date].
Proof.
  intros Hsd Hed. unfold fetch_timeseries. rewrite Hsd, Hed. cbv zeta.
  match goal with |- context [get_json ?q w] => set (r := q) end.
  change (timeseries_request base target
            (if MAX_HISTORY_DAYS <? ed - sd
             then strftime (ed - MAX_HISTORY_DAYS) else start_date) end_date)
    with r.
  rewrite <- (get_json_sent r w).
  destruct (get_json r w) as [[j|e] w']; cbn [snd]; trivial.
  destruct (json_get j (lit "rates") (JObj [])) as [[|b|q|s|l|rates]|];
    cbn [snd]; trivial.
  destruct (build_records target (sorted_items rates)); reflexivity.
Qed.



(** C5 (as amended).  [convert_currency] lets the failure of its provider
    call out as it is, with no wrapping: the exception of the transport,
    the [HTTPError] of a 4xx or 5xx status, the [JSONDecodeError] of a body
    that is not JSON.  A JSON object without [result] is no failure: it is
    returned with an absent result. *)
Theorem convert_currency_propagates (amount : Q) (base target : str) (w : world) :
  (forall e rest, pending w = NetFail e :: rest ->
     fst (convert_currency amount base target w) = Raise e) /\
  (forall status body rest, pending w = Response status body :: rest ->
     is_error_status status = true ->
     fst (convert_currency amount base target w) = Raise (HTTPError status)) /\
  (forall status rest, pending w = Response status None :: rest ->
     is_error_status status = false ->
     fst (convert_currency amount base target w) = Raise JSONDecodeError) /\
  (forall status o rest, pending w = Response status (Some (JObj o)) :: rest ->
     is_error_status status = false ->
     fst (convert_currency amount base target w)
     = Ok (dict_get (lit "result") o, JObj o)).
Proof.
  unfold convert_currency, get_json, requests_get.
  repeat split; intros; rewrite H; try rewrite H0; reflexivity.
Qed.

Lemma convert_currency_propagates_witness :
  fst (convert_currency (100 # 1)%Q (lit "USD") (lit "EUR")
         (mkWorld [NetFail Timeout] [])) = Raise Timeout.
Proof.
  exact (proj1 (convert_currency_propagates (100 # 1)%Q (lit "USD") (lit "EUR")
                  (mkWorld [NetFail Timeout] [])) Timeout [] eq_refl).
Defined.

(** C5, as claimed: on a 500 response [convert_currency] raises the
    [HTTPError] itself, whose class is not [ConversionError]. *)
Lemma convert_currency_no_wrapper :
  let r := fst (convert_currency (100 # 1)%Q (lit "USD") (lit "EUR")
                  (mkWorld [Response 500 None] [])) in
  r = Raise (HTTPError 500) /\
  ~ (exists e, r = Raise e /\ exn_class e = "ConversionError"%string).
Proof.
  vm_compute. split; trivial. intros (e & [= <-] & H). discriminate.
Qed.

(** C7.  On a response whose [rates] object maps (distinct) ISO dates to
    rate objects, [fetch_timeseries] returns one point per date key, in
    strictly increasing order of the dates, and the point of a date whose
    rate object lacks the target symbol is there with an absent rate. *)
Theorem fetch_timeseries_points
        (base target start_date end_date : str) (sd ed : date) (w : world)
        (status : Z) (body rates : list (str * json)) (rest : list outcome) :
  fromisoformat start_date = Ok sd ->
  fromisoformat end_date = Ok ed ->
  pending w = Response status (Some (JObj body)) :: rest ->
  is_error_status status = false ->
  dict_get (lit "rates") body = Some (JObj rates) ->
  NoDup (map fst rates) ->
  Forall is_rate_row rates ->
  exists pts,
    fst (fetch_timeseries base target start_date end_date w) = Ok pts /\
    Permutation pts (map (row_point target) rates) /\
    length pts = length rates /\
    StronglySorted Z.lt (map pt_date pts) /\
    (forall d o n, In (d, JObj o) rates -> fromisoformat d = Ok n ->
       dict_get target o = None -> In (mkPoint n None) pts).
Proof.
  intros Hsd Hed Hp Hs Hr Hnd Hrows.
  pose proof (sorted_items_perm _ rates) as Hperm.
  assert (Hrows' : Forall is_rate_row (sorted_items rates)).
  { apply (Permutation_Forall (Permutation_sym Hperm)). exact Hrows. }
  destruct (build_to_datetime target _ Hrows') as (recs & Hb & Ht).
  exists (map (row_point target) (sorted_items rates)).
  assert (HP : Permutation (map (row_point target) (sorted_items rates))
                 (map (row_point target) rates))
    by (apply Permutation_map; exact Hperm).
  split; [|split; [exact HP|split; [|split]]].
  - unfold fetch_timeseries. rewrite Hsd, Hed.
    rewrite (get_json_object _ w _ _ _ Hp Hs). unfold json_get. rewrite Hr, Hb.
    exact Ht.
  - rewrite (Permutation_length HP). apply length_map.
  - apply Sorted_StronglySorted; [exact Z.lt_trans|].
    apply sorted_points; trivial.
    + apply sorted_items_sorted.
    + apply (Permutation_NoDup (l := map fst rates)); trivial.
      apply Permutation_map, Permutation_sym, Hperm.
  - intros d o n Hin Hn Ho.
    apply (Permutation_in _ (Permutation_sym HP)).
    apply in_map_iff. exists (d, JObj o). split; trivial.
    unfold row_point. simpl. rewrite Hn, Ho. reflexivity.
Qed.

Lemma fetch_timeseries_points_witness :
  let rates := [(lit "2024-01-02", JObj [(lit "EUR", JNum (1 # 1))]);
                (lit "2023-12-31", JObj [])] in
  let w := mkWorld [Response 200 (Some (JObj [(lit "rates", JObj rates)]))] [] in
  exists pts,
    fst (fetch_timeseries (lit "USD") (lit "EUR")
           (lit "2023-12-30") (lit "2024-01-05") w) = Ok pts /\
    In (mkPoint 738885 None) pts.
Proof.
  intros rates w.
  destruct (fetch_timeseries_points (lit "USD") (lit "EUR")
              (lit "2023-12-30") (lit "2024-01-05") 738884 738890 w 200
              [(lit "rates", JObj rates)] rates [] eq_refl eq_refl eq_refl
              eq_refl eq_refl)
    as (pts & H1 & _ & _ & _ & H5).
  - repeat constructor; simpl; intuition discriminate.
  - repeat constructor; simpl; eauto.
  - exists pts. split; [exact H1|].
    apply (H5 (lit "2023-12-31") [] 738885); simpl; auto.
Defined.


(** ** The cache *)

Section CacheFacts.
Variables K V : Type.
Variable key_eqb : K -> K -> bool.
Variable ttl : Z.
Variable f : K -> world -> result V * world.
Hypothesis key_eqb_spec : forall k k', key_eqb k k' = true <-> k = k'.
Hypothesis f_sends :
  forall k w, (length (sent (snd (f k w))) <= length (sent w) + 1)%nat.

Lemma cache_find_same (k : K) (e : entry V) (c : store K V) :
  cache_find key_eqb k ((k, e) :: c) = Some e.
Proof.
  cbn [cache_find]. rewrite (proj2 (key_eqb_spec k k) eq_refl). reflexivity.
Qed.

Lemma cache_find_other (k k' : K) (e : entry V) (c : store K V) :
  k' <> k -> cache_find key_eqb k' ((k, e) :: c) = cache_find key_eqb k' c.
Proof.
  intros Hne. cbn [cache_find]. destruct (key_eqb k' k) eqn:E; trivial.
  apply key_eqb_spec in E. contradiction.
Qed.

Lemma cache_data_hit (now : Z) (k : K) (c : store K V) (w : world) (e : entry V) :
  cache_find key_eqb k c = Some e -> now - fetched_at e < ttl ->
  cache_data key_eqb ttl f now k c w = (Ok (value e), c, w).
Proof.
  intros Hf Hage. unfold cache_data. rewrite Hf.
  apply Z.ltb_lt in Hage. rewrite Hage. reflexivity.
Qed.

Lemma cache_data_miss (now : Z) (k : K) (c : store K V) (w : world) :
  cache_find key_eqb k c = None \/
  (exists e, cache_find key_eqb k c = Some e /\ ttl <= now - fetched_at e) ->
  cache_data key_eqb ttl f now k c w
  = (let (res, w') := f k w in
     match res with
     | Ok v => (Ok v, (k, mkEntry v now) :: c, w')
     | Raise e => (Raise e, c, w')
     end).
Proof.
  unfold cache_data. intros [Hf|(e & Hf & Hage)]; rewrite Hf; trivial.
  destruct (Z.ltb_spec (now - fetched_at e) ttl); [lia|reflexivity].
Qed.

Lemma cache_data_sends (now : Z) (k : K) (c : store K V) (w : world) :
  (length (sent (snd (cache_data key_eqb ttl f now k c w)))
   <= length (sent w) + 1)%nat.
Proof.
  unfold cache_data. pose proof (f_sends k w) as Hs.
  destruct (cache_find key_eqb k c) as [e|];
    [destruct (now - fetched_at e <? ttl); [simpl; lia|]|];
    destruct (f k w) as [[v|x] w']; exact Hs.
Qed.

(** A lookup that returned a value either served an entry and changed
    nothing, or fetched and stored the value at the time of the lookup. *)
Lemma cache_data_returned (now : Z) (k : K) (c c1 : store K V)
      (w w1 : world) (v : V) :
  cache_data key_eqb ttl f now k c w = (Ok v, c1, w1) ->
  (c1 = c /\ w1 = w) \/
  (c1 = (k, mkEntry v now) :: c /\ f k w = (Ok v, w1)).
Proof.
  unfold cache_data. intros H1.
  destruct (cache_find key_eqb k c) as [e|];
    [destruct (now - fetched_at e <? ttl);
     [injection H1 as _ <- <-; auto|]|];
    destruct (f k w) as [[v'|x] w']; try discriminate;
    injection H1 as <- <- <-; auto.
Qed.

(** The operations built on [cache_data]: the state holds the entries at
    [cache_of], and [rebuild] puts new entries and the provider back. *)
Variable cache_of : app -> store K V.
Variable rebuild : app -> store K V -> world -> app.
Variable cached : Z -> K -> app -> result V * app.
Hypothesis cached_eq :
  forall now k a,
    cached now k a
    = (let '(r, c, w) := cache_data key_eqb ttl f now k (cache_of a) (net a) in
       (r, rebuild a c w)).
Hypothesis cache_of_rebuild : forall a c w, cache_of (rebuild a c w) = c.
Hypothesis net_rebuild : forall a c w, net (rebuild a c w) = w.
Hypothesis rebuild_same : forall a, rebuild a (cache_of a) (net a) = a.

Lemma cached_hit (now : Z) (k : K) (a : app) (e : entry V) :
  cache_find key_eqb k (cache_of a) = Some e ->
  now - fetched_at e < ttl ->
  cached now k a = (Ok (value e), a).
Proof.
  intros Hf Hage. rewrite cached_eq, (cache_data_hit now k _ _ e Hf Hage).
  rewrite rebuild_same. reflexivity.
Qed.

Lemma cached_miss (now : Z) (k : K) (a : app) :
  cache_find key_eqb k (cache_of a) = None \/
  (exists e, cache_find key_eqb k (cache_of a) = Some e /\
             ttl <= now - fetched_at e) ->
  cached now k a
  = (let (res, w') := f k (net a) in
     match res with
     | Ok v => (Ok v, rebuild a ((k, mkEntry v now) :: cache_of a) w')
     | Raise e => (Raise e, rebuild a (cache_of a) w')
     end).
Proof.
  intros Hm. rewrite cached_eq, (cache_data_miss now k _ _ Hm).
  destruct (f k (net a)) as [[v|e] w']; reflexivity.
Qed.

Lemma cache_data_memoised : memoised ttl key_eqb f cache_of cached.
Proof.
  unfold memoised. split; [exact key_eqb_spec|].
  split; [exact cached_hit|]. split; [|split].
  - intros now k a Hm. rewrite (cached_miss now k a Hm).
    destruct (f k (net a)) as [[v|e] w']; cbn [fst snd];
      rewrite cache_of_rebuild, net_rebuild; repeat split; trivial.
    + intros k' Hne. apply cache_find_other. exact Hne.
    + apply cache_find_same.
  - intros now1 now2 k a v a1 H1 Hage. rewrite cached_eq in H1.
    destruct (cache_data key_eqb ttl f now1 k (cache_of a) (net a))
      as [[r c1] w1] eqn:E.
    injection H1 as -> <-.
    destruct (cache_data_returned now1 k _ _ _ _ v E) as [[-> ->]|[-> Hf]].
    + rewrite rebuild_same, cached_eq.
      pose proof (cache_data_sends now2 k (cache_of a) (net a)) as Hs.
      destruct (cache_data key_eqb ttl f now2 k (cache_of a) (net a))
        as [[r2 c2] w2]. cbn [snd] in *. rewrite net_rebuild. exact Hs.
    + rewrite (cached_hit now2 k _ (mkEntry v now1)).
      * cbn [snd]. rewrite net_rebuild.
        pose proof (f_sends k (net a)) as Hs. rewrite Hf in Hs. exact Hs.
      * rewrite cache_of_rebuild. apply cache_find_same.
      * exact Hage.
  - intros now1 now2 k a v a1 Hm H1. rewrite (cached_miss now1 k a Hm) in H1.
    destruct (f k (net a)) as [[v'|e] w']; [|discriminate].
    injection H1 as <- <-.
    assert (Hfind : cache_find key_eqb k
                      (cache_of (rebuild a ((k, mkEntry v' now1) :: cache_of a) w'))
                    = Some (mkEntry v' now1))
      by (rewrite cache_of_rebuild; apply cache_find_same).
    split; intros Hage.
    + apply (cached_hit now2 k _ (mkEntry v' now1) Hfind). exact Hage.
    + rewrite (cached_miss now2 k).
      * destruct (f k (net (rebuild a ((k, mkEntry v' now1) :: cache_of a) w')))
          as [[v2|e2] w2]; cbn [fst snd]; rewrite net_rebuild; auto.
      * right. exists (mkEntry v' now1). split; [exact Hfind|exact Hage].
Qed.
End CacheFacts.

Lemma str_eqb_refl (s : str) : str_eqb s s = true.
Proof.
  induction s as [|x s IH]; simpl; trivial. rewrite N.eqb_refl. exact IH.
Qed.

Lemma str_eqb_spec (a b : str) : str_eqb a b = true <-> a = b.
Proof.
  split; [|intros ->; apply str_eqb_refl].
  revert b. induction a as [|x a IH]; intros [|y b]; simpl; try discriminate;
    trivial.
  intros H. apply andb_true_iff in H as [Hx Hab].
  apply N.eqb_eq in Hx. rewrite Hx, (IH b Hab). reflexivity.
Qed.

Lemma ts_key_eqb_refl (k : ts_key) : ts_key_eqb k k = true.
Proof.
  destruct k as [[[a b] c] d]. simpl. rewrite !str_eqb_refl. reflexivity.
Qed.

Lemma ts_key_eqb_spec (k k' : ts_key) : ts_key_eqb k k' = true <-> k = k'.
Proof.
  split; [|intros ->; apply ts_key_eqb_refl].
  destruct k as [[[a b] c] d], k' as [[[a' b'] c'] d']. unfold ts_key_eqb.
  intros H. repeat (apply andb_true_iff in H as [H ?]).
  repeat match goal with
         | E : str_eqb _ _ = true |- _ => apply str_eqb_spec in E; subst
         end.
  reflexivity.
Qed.

Lemma get_json_sends (r : request) (w : world) :
  (length (sent (snd (get_json r w))) <= length (sent w) + 1)%nat.
Proof. rewrite get_json_sent, length_app. simpl. lia. Qed.

Lemma fetch_symbols_sends (w : world) :
  (length (sent (snd (fetch_symbols w))) <= length (sent w) + 1)%nat.
Proof.
  unfold fetch_symbols.
  pose proof (get_json_sends (mkRequest (API_BASE ++ "/symbols") [] 10) w) as H.
  destruct (get_json _ w) as [[j|e] w']; exact H.
Qed.

Lemma fetch_latest_sends (base : str) (w : world) :
  (length (sent (snd (fetch_latest base w))) <= length (sent w) + 1)%nat.
Proof.
  unfold fetch_latest.
  pose proof (get_json_sends
                (mkRequest (API_BASE ++ "/latest") [("base", PStr base)] 10) w) as H.
  destruct (get_json _ w) as [[j|e] w']; exact H.
Qed.

Lemma fetch_timeseries_sends (base target start_date end_date : str) (w : world) :
  (length (sent (snd (fetch_timeseries base target start_date end_date w)))
   <= length (sent w) + 1)%nat.
Proof.
  unfold fetch_timeseries.
  destruct (fromisoformat start_date) as [sd|]; [|simpl; lia].
  destruct (fromisoformat end_date) as [ed|]; [|simpl; lia].
  cbv zeta.
  match goal with |- context [get_json ?r w] =>
    pose proof (get_json_sends r w) as H; destruct (get_json r w) as [[j|e] w']
  end; cbn [snd] in *; trivial.
  destruct (json_get j (lit "rates") (JObj [])) as [[|b|q|s|l|rates]|];
    cbn [snd]; trivial.
  destruct (build_records target (sorted_items rates)); exact H.
Qed.

(** C6, as claimed: two lookups of the latest rates one second apart, far
    less than the 300 s of the time-to-live, send two requests when the
    first fetch fails on a 500 response, since a fetch that raises stores
    no entry. *)
Lemma failed_fetch_is_repeated :
  let w := mkWorld [Response 500 None;
                    Response 200 (Some (JObj [(lit "rates", JObj [])]))] [] in
  let a := mkApp [] [] [] w in
  let a1 := snd (cached_fetch_latest 1000 (lit "USD") a) in
  fst (cached_fetch_latest 1000 (lit "USD") a) = Raise (HTTPError 500) /\
  latest_cache a1 = [] /\
  1001 - 1000 < TTL_LATEST /\
  length (sent (net (snd (cached_fetch_latest 1001 (lit "USD") a1)))) = 2%nat /\
  ~ (forall now1 now2 k a,
       now2 - now1 < TTL_LATEST ->
       (length (sent (net (snd (cached_fetch_latest now2 k
                                  (snd (cached_fetch_latest now1 k a))))))
        <= length (sent (net a)) + 1)%nat).
Proof.
  cbv zeta. repeat split; try (vm_compute; congruence).
  intros H.
  specialize (H 1000 1001 (lit "USD")
                (mkApp [] [] []
                   (mkWorld [Response 500 None;
                             Response 200 (Some (JObj [(lit "rates", JObj [])]))]
                            []))
                ltac:(vm_compute; reflexivity)).
  vm_compute in H. lia.
Qed.

(** C6 (as amended).  The three cached operations follow the contract
    [memoised] with a time-to-live of 900 s (symbols), 300 s (latest rates,
    keyed by the base) and 3600 s (time series, keyed by the whole tuple of
    base, target, start and end, two tuples being one key only when all
    four components are equal): an entry is served while
    [now - fetch_timestamp < ttl] and only then; a fetch that returns
    stores its value under its key with the time of the lookup, and leaves
    the other keys alone; after a lookup that returned a value, a lookup of
    the same key less than the time-to-live later sends no further
    request beyond the one fetch; a lookup that finds its entry expired
    runs the fetch again and returns the result of that fetch. *)
Theorem cached_operations_memoised :
  memoised 900 unit_eqb (fun _ => fetch_symbols) symbols_cache
           (fun now _ a => cached_fetch_symbols now a) /\
  memoised 300 str_eqb fetch_latest latest_cache cached_fetch_latest /\
  memoised 3600 ts_key_eqb
           (fun k => let '(b, t, sd, ed) := k in fetch_timeseries b t sd ed)
           timeseries_cache
           (fun now k a =>
              let '(b, t, sd, ed) := k in cached_fetch_timeseries now b t sd ed a).
Proof.
  split; [|split].
  - apply cache_data_memoised
      with (rebuild := fun a c w => mkApp c (latest_cache a) (timeseries_cache a) w).
    + intros [] []. split; reflexivity.
    + intros _ w. apply fetch_symbols_sends.
    + intros now [] a. reflexivity.
    + reflexivity.
    + reflexivity.
    + intros [cs cl ct w]. reflexivity.
  - apply cache_data_memoised
      with (rebuild := fun a c w => mkApp (symbols_cache a) c (timeseries_cache a) w).
    + exact str_eqb_spec.
    + exact fetch_latest_sends.
    + intros now k a. reflexivity.
    + reflexivity.
    + reflexivity.
    + intros [cs cl ct w]. reflexivity.
  - apply cache_data_memoised
      with (rebuild := fun a c w => mkApp (symbols_cache a) (latest_cache a) c w).
    + exact ts_key_eqb_spec.
    + intros [[[b t] sd] ed] w. apply fetch_timeseries_sends.
    + intros now [[[b t] sd] ed] a. reflexivity.
    + reflexivity.
    + reflexivity.
    + intros [cs cl ct w]. reflexivity.
Qed.

Lemma cached_operations_memoised_witness :
  let old := JObj [(lit "EUR", JNum (9 # 10))] in
  let new := JObj [(lit "EUR", JNum (95 # 100))] in
  let w := mkWorld [Response 200 (Some (JObj [(lit "rates", old)]));
                    Response 200 (Some (JObj [(lit "rates", new)]))] [] in
  let a := mkApp [] [] [] w in
  let a1 := snd (cached_fetch_latest 1000 (lit "USD") a) in
  cached_fetch_latest 1299 (lit "USD") a1 = (Ok old, a1) /\
  fst (cached_fetch_latest 1300 (lit "USD") a1) = Ok new.
Proof.
  intros old new w a a1.
  pose (H := proj2 (proj2 (proj2 (proj2 (proj1 (proj2 cached_operations_memoised)))))
               1000 1299 (lit "USD") a old a1 (or_introl eq_refl) eq_refl).
  pose (H' := proj2 (proj2 (proj2 (proj2 (proj1 (proj2 cached_operations_memoised)))))
                1000 1300 (lit "USD") a old a1 (or_introl eq_refl) eq_refl).
  split; [exact (proj1 H ltac:(lia))|].
  exact (proj1 (proj2 H' ltac:(lia))).
Defined.

(** An entry of [fetch_latest] fetched at second 1000 is served at second
    1299 and fetched again at second 1300, where the new body is returned. *)
Example latest_expires_after_300_seconds :
  let old := JObj [(lit "EUR", JNum (9 # 10))] in
  let new := JObj [(lit "EUR", JNum (95 # 100))] in
  let w := mkWorld [Response 200 (Some (JObj [(lit "rates", new)]))] [] in
  let a := mkApp [] [(lit "USD", mkEntry old 1000)] [] w in
  fst (cached_fetch_latest 1299 (lit "USD") a) = Ok old /\
  sent (net (snd (cached_fetch_latest 1299 (lit "USD") a))) = [] /\
  fst (cached_fetch_latest 1300 (lit "USD") a) = Ok new /\
  length (sent (net (snd (cached_fetch_latest 1300 (lit "USD") a)))) = 1%nat.
Proof. vm_compute. repeat split. Qed.

(** C1.  The handler of "Refresh rates now" shows its message and leaves
    every cache as it was: a lookup that follows a refresh within the
    time-to-live is served from the cache, and no request is sent, although
    the provider has a newer value to give. *)
Theorem refresh_does_not_invalidate :
  (forall b a, fst (on_refresh b a) = a) /\
  snd (on_refresh true (mkApp [] [] [] (mkWorld [] [])))
    = ["Refreshing cached rates..."%string] /\
  let old := JObj [(lit "EUR", JNum (9 # 10))] in
  let new := JObj [(lit "EUR", JNum (95 # 100))] in
  let w := mkWorld [Response 200 (Some (JObj [(lit "rates", new)]))] [] in
  let a := mkApp [] [(lit "USD", mkEntry old 1000)] [] w in
  let a' := fst (on_refresh true a) in
  cached_fetch_latest 1010 (lit "USD") a' = (Ok old, a) /\
  sent (net (snd (cached_fetch_latest 1010 (lit "USD") a'))) = [] /\
  fst (fetch_latest (lit "USD") w) = Ok new.
Proof.
  split; [intros [|] a; reflexivity|].
  vm_compute. repeat split.
Qed.

(** ** The parser: further properties *)

Lemma dict_get_in (A : Type) (k : str) (d : list (str * A)) (v : A) :
  dict_get k d = Some v -> In v (map snd d).
Proof.
  induction d as [|[k' v'] d IH]; simpl; [discriminate|].
  destruct (str_eqb k k'); [intros [= ->]; auto|auto].
Qed.

(** What [word_to_currency_code] returns is three capital ASCII letters. *)
Lemma word_to_currency_code_shape (t c : str) :
  word_to_currency_code t = Some c ->
  length c = 3%nat /\ forallb is_AZ c = true.
Proof.
  unfold word_to_currency_code.
  destruct (dict_get _ COMMON_CURY) as [code|] eqn:E.
  - intros [= <-]. apply dict_get_in in E.
    assert (F : Forall (fun v => length v = 3%nat /\ forallb is_AZ v = true)
                  (map snd COMMON_CURY)) by (repeat constructor).
    rewrite Forall_forall in F. auto.
  - destruct (Nat.eqb_spec (length (filter is_AZ (upper t))) 3); [|discriminate].
    intros [= <-]. split; trivial.
    apply forallb_forall. intros x Hx. apply filter_In in Hx. tauto.
Qed.

(** X1.  [parse_nl_input] either returns a request or raises the
    [ValueError] with the format hint: [float] never fails on the number
    the pattern captures, so no other exception leaves the parser. *)
Theorem parse_nl_input_only_parse_error (text : str) :
  (exists res, parse_nl_input text = Ok res) \/
  parse_nl_input text = Raise (ValueError PARSE_MSG).
Proof.
  destruct (parse_nl_input_cases text)
    as [[_ Hp]|(pre & w & post & num & a & b & _ & Hw & _ & _ & Hp)]; [auto|].
  rewrite Hp. unfold resolve.
  destruct Hw as (ws1 & ws2 & kw & ws3 & _ & Hn & _).
  destruct (float_number num Hn) as (q & -> & _).
  destruct (word_to_currency_code (upper a)), (word_to_currency_code (upper b));
    try destruct (_ && _)%bool; eauto.
Qed.

(** X2.  Every currency code [parse_nl_input] returns is exactly three
    characters long; on a text without U+0130 and U+212A both codes are
    three capital ASCII letters. *)
Theorem parse_nl_input_codes (text : str) (amt : Q) (a b : str) :
  parse_nl_input text = Ok (amt, a, b) ->
  (length a = 3%nat /\ length b = 3%nat) /\
  (forallb (fun x => negb (N.eqb x I_DOT || N.eqb x KELVIN)) text = true ->
   forallb is_AZ a = true /\ forallb is_AZ b = true).
Proof.
  intros H.
  destruct (parse_nl_input_cases text)
    as [[_ Hp]|(pre & w & post & num & ta & tb & Hs & Hw & _ & _ & Hp)];
    [congruence|].
  rewrite Hp in H. unfold resolve in H.
  destruct (float num) as [q|e]; [|discriminate].
  destruct (word_to_currency_code (upper ta)) as [ac|] eqn:Ea;
    [destruct (word_to_currency_code (upper tb)) as [bc|] eqn:Eb|].
  - injection H as _ <- <-.
    apply word_to_currency_code_shape in Ea, Eb. tauto.
  - destruct (_ && _)%bool eqn:L; [|discriminate]. injection H as _ <- <-.
    apply andb_true_iff in L as [La Lb]. apply Nat.eqb_eq in La, Lb.
    split; [auto|]. intros Htext. exfalso.
    destruct Hw as (ws1 & ws2 & kw & ws3 & Hw & _ & _ & _ & _ & _ & _ & [_ Hb]).
    apply (word_to_currency_code_None (upper tb)); trivial.
    apply (upper_token_AZ text); trivial.
    + rewrite forallb_forall in Htext. intros x Hx. specialize (Htext x Hx).
      apply negb_true_iff, orb_false_iff in Htext as [H1 H2].
      apply N.eqb_neq in H1, H2. auto.
    + intros x Hx. apply in_strip. rewrite Hs, Hw.
      repeat rewrite in_app_iff. tauto.
  - destruct (_ && _)%bool eqn:L; [|discriminate]. injection H as _ <- <-.
    apply andb_true_iff in L as [La Lb]. apply Nat.eqb_eq in La, Lb.
    split; [auto|]. intros Htext. exfalso.
    destruct Hw as (ws1 & ws2 & kw & ws3 & Hw & _ & _ & [_ Ha] & _).
    apply (word_to_currency_code_None (upper ta)); trivial.
    apply (upper_token_AZ text); trivial.
    + rewrite forallb_forall in Htext. intros x Hx. specialize (Htext x Hx).
      apply negb_true_iff, orb_false_iff in Htext as [H1 H2].
      apply N.eqb_neq in H1, H2. auto.
    + intros x Hx. apply in_strip. rewrite Hs, Hw.
      repeat rewrite in_app_iff. tauto.
Qed.

Lemma parse_nl_input_codes_witness :
  (length (lit "GBP") = 3%nat /\ length (lit "USD") = 3%nat) /\
  forallb is_AZ (lit "GBP") = true /\ forallb is_AZ (lit "USD") = true.
Proof.
  destruct (parse_nl_input_codes (lit "2500 pounds to usd") (2500 # 1)%Q
              (lit "GBP") (lit "USD") eq_refl) as [H1 H2].
  split; [exact H1|]. apply H2. reflexivity.
Defined.

(** X3.  A text without any ASCII digit, the empty and the blank text among
    them, is rejected with the [ValueError] of the format hint. *)
Theorem parse_nl_input_needs_digit (text : str) :
  forallb (fun x => negb (is_digit x)) text = true ->
  parse_nl_input text = Raise (ValueError PARSE_MSG).
Proof.
  intros Hnd.
  destruct (parse_nl_input_cases text)
    as [[_ Hp]|(pre & w & post & num & a & b & Hs & Hw & _ & _ & _)]; [exact Hp|].
  exfalso.
  destruct Hw as (ws1 & ws2 & kw & ws3 & Hw & (ip & Hip & Hnum) & _).
  unfold all_digits in Hip. apply andb_true_iff in Hip as [Hne Hip].
  destruct ip as [|x ip]; [discriminate|].
  simpl in Hip. apply andb_true_iff in Hip as [Hx _].
  assert (Hin : In x text).
  { apply in_strip. rewrite Hs, Hw.
    destruct Hnum as [->|(fp & _ & ->)]; repeat rewrite in_app_iff;
      simpl; tauto. }
  rewrite forallb_forall in Hnd. specialize (Hnd x Hin).
  rewrite Hx in Hnd. discriminate.
Qed.

Lemma parse_nl_input_needs_digit_witness :
  parse_nl_input (lit "  usd to eur ") = Raise (ValueError PARSE_MSG).
Proof.
  apply (parse_nl_input_needs_digit (lit "  usd to eur ")). reflexivity.
Defined.

Lemma lstrip_spaces_app (ws t : str) :
  forallb isspace ws = true -> lstrip (ws ++ t) = lstrip t.
Proof.
  induction ws as [|x ws IH]; simpl; trivial. intros H.
  apply andb_true_iff in H as [Hx H]. rewrite Hx. auto.
Qed.

Lemma lstrip_app (t u : str) :
  lstrip t <> [] -> lstrip (t ++ u) = lstrip t ++ u.
Proof.
  induction t as [|x t IH]; simpl; [congruence|].
  destruct (isspace x); auto.
Qed.

Lemma lstrip_nil (t : str) : lstrip t = [] -> forallb isspace t = true.
Proof.
  induction t as [|x t IH]; simpl; trivial.
  destruct (isspace x); [auto|discriminate].
Qed.

Lemma forallb_rev (A : Type) (p : A -> bool) (l : list A) :
  forallb p l = true -> forallb p (rev l) = true.
Proof.
  rewrite !forallb_forall. intros H x Hx. apply H, in_rev, Hx.
Qed.

Lemma rstrip_app_spaces (t ws : str) :
  forallb isspace ws = true -> rstrip (t ++ ws) = rstrip t.
Proof.
  intros H. unfold rstrip. rewrite rev_app_distr, lstrip_spaces_app; trivial.
  apply forallb_rev, H.
Qed.

Lemma strip_surrounded (ws1 t ws2 : str) :
  forallb isspace ws1 = true -> forallb isspace ws2 = true ->
  strip (ws1 ++ t ++ ws2) = strip t.
Proof.
  intros H1 H2. unfold strip. rewrite lstrip_spaces_app by exact H1.
  destruct (lstrip t) as [|x u] eqn:E.
  - apply lstrip_nil in E.
    assert (Hall : forallb isspace (t ++ ws2) = true)
      by (rewrite forallb_app, E, H2; reflexivity).
    pose proof (lstrip_spaces_app (t ++ ws2) [] Hall) as G.
    rewrite app_nil_r in G. rewrite G. reflexivity.
  - rewrite lstrip_app by (rewrite E; discriminate).
    rewrite E. apply rstrip_app_spaces, H2.
Qed.

(** X4.  White space around the text is ignored: padding the input with
    white space on either side changes nothing in the result. *)
Theorem parse_nl_input_ignores_padding (ws1 text ws2 : str) :
  forallb isspace ws1 = true -> forallb isspace ws2 = true ->
  parse_nl_input (ws1 ++ text ++ ws2) = parse_nl_input text.
Proof.
  intros H1 H2. unfold parse_nl_input.
  rewrite (strip_surrounded ws1 text ws2 H1 H2). reflexivity.
Qed.

Lemma parse_nl_input_ignores_padding_witness :
  parse_nl_input (lit "  " ++ lit "1000 eur in usd" ++ [9%N; 160%N])
  = parse_nl_input (lit "1000 eur in usd").
Proof.
  apply (parse_nl_input_ignores_padding (lit "  ") (lit "1000 eur in usd")
           [9%N; 160%N]); reflexivity.
Defined.

Lemma upper_of_AZ (a : str) : forallb is_AZ a = true -> upper a = a.
Proof.
  unfold upper. induction a as [|x a IH]; simpl; trivial. intros H.
  apply andb_true_iff in H as [Hx H]. rewrite upper_char_of_AZ, IH; trivial.
Qed.

(** X5.  On a token of ASCII characters and letters of the pattern's class,
    a code that [word_to_currency_code] returns is three capital ASCII
    letters and is its own code: resolving it again returns it unchanged. *)
Theorem word_to_currency_code_idempotent (t c : str) :
  forallb upper_faithful t = true ->
  word_to_currency_code t = Some c ->
  length c = 3%nat /\ forallb is_AZ c = true /\
  word_to_currency_code c = Some c.
Proof.
  intros _ H. destruct (word_to_currency_code_shape t c H) as [Hlen HAZ].
  repeat split; trivial.
  unfold word_to_currency_code in *.
  rewrite (upper_of_AZ c HAZ), (filter_all _ _ c HAZ).
  destruct (dict_get (filter is_AZ (upper t)) COMMON_CURY) as [code|] eqn:E.
  - injection H as ->. apply dict_get_in in E.
    assert (F : Forall (fun v => dict_get v COMMON_CURY = Some v)
                  (map snd COMMON_CURY)) by (repeat constructor).
    rewrite Forall_forall in F. rewrite (F c E). reflexivity.
  - destruct (Nat.eqb (length (filter is_AZ (upper t))) 3); [|discriminate].
    injection H as Hc. rewrite Hc in E. rewrite E.
    apply Nat.eqb_eq in Hlen. rewrite Hlen. reflexivity.
Qed.

Lemma word_to_currency_code_idempotent_witness :
  length (lit "GBP") = 3%nat /\ forallb is_AZ (lit "GBP") = true /\
  word_to_currency_code (lit "GBP") = Some (lit "GBP").
Proof.
  apply (word_to_currency_code_idempotent (lit "Sterling!") (lit "GBP"));
    reflexivity.
Defined.

(** ** The parser on a well-formed phrase *)

Lemma takes_cls (p : char -> bool) (x : char) (rest : str) :
  p x = true -> takes (Cls p) [x] rest (fun c => c).
Proof. intros Hp c k m Hk. simpl. rewrite Hp. exact Hk. Qed.

Lemma takes_eps (rest : str) : takes Eps [] rest (fun c => c).
Proof. intros c k m Hk. exact Hk. Qed.

Lemma takes_seq (r1 r2 : regex) (w1 w2 rest : str) (f1 f2 : caps -> caps) :
  takes r1 w1 (w2 ++ rest) f1 -> takes r2 w2 rest f2 ->
  takes (Seq r1 r2) (w1 ++ w2) rest (fun c => f2 (f1 c)).
Proof.
  intros H1 H2 c k m Hk. simpl. rewrite <- app_assoc.
  apply H1. apply H2. exact Hk.
Qed.

Lemma takes_alt_l (r1 r2 : regex) (w rest : str) (f : caps -> caps) :
  takes r1 w rest f -> takes (Alt r1 r2) w rest f.
Proof. intros H c k m Hk. simpl. rewrite (H c k m Hk). reflexivity. Qed.

Lemma takes_group (i : nat) (r : regex) (w rest : str) (f : caps -> caps) :
  takes r w rest f -> takes (Group i r) w rest (fun c => (i, w) :: f c).
Proof.
  intros H c k m Hk. simpl. apply H.
  rewrite length_app, Nat.add_sub, firstn_app, Nat.sub_diag, firstn_all.
  simpl. rewrite app_nil_r. exact Hk.
Qed.

(** A greedy repetition of a class takes the whole run of the class. *)
Lemma star_loop_run (p : char -> bool) (k : str -> caps -> option caps)
      (ds rest : str) (c m : caps) :
  forallb p ds = true -> stops p rest -> k rest c = Some m ->
  forall fuel, (length (ds ++ rest) <= fuel)%nat ->
    star_loop (rmatch (Cls p)) k fuel (ds ++ rest) c = Some m.
Proof.
  intros Hds Hstop Hk. induction ds as [|x ds IH]; intros fuel Hfuel.
  - simpl. destruct fuel as [|fuel]; simpl; trivial.
    destruct rest as [|y rest]; trivial. simpl in Hstop. rewrite Hstop.
    exact Hk.
  - simpl in Hds. apply andb_true_iff in Hds as [Hx Hds].
    destruct fuel as [|fuel]; [simpl in Hfuel; lia|].
    cbn [star_loop rmatch Datatypes.app]. rewrite Hx.
    replace (length (ds ++ rest) <? length (x :: ds ++ rest))%nat with true
      by (symmetry; apply Nat.ltb_lt; simpl; lia).
    rewrite IH; trivial. simpl in Hfuel. lia.
Qed.

Lemma takes_star_cls (p : char -> bool) (ds rest : str) :
  forallb p ds = true -> stops p rest ->
  takes (Star (Cls p)) ds rest (fun c => c).
Proof.
  intros Hds Hstop c k m Hk. simpl.
  apply star_loop_run; trivial.
Qed.

Lemma takes_plus_cls (p : char -> bool) (ds rest : str) :
  (negb (Nat.eqb (length ds) 0) && forallb p ds)%bool = true -> stops p rest ->
  takes (Plus (Cls p)) ds rest (fun c => c).
Proof.
  intros H Hstop. destruct ds as [|x ds]; [discriminate|]. simpl in H.
  apply andb_true_iff in H as [Hx Hds].
  apply (takes_seq (Cls p) (Star (Cls p)) [x] ds rest (fun c => c) (fun c => c)).
  - apply takes_cls, Hx.
  - apply takes_star_cls; trivial.
Qed.

Lemma takes_atleast3 (p : char -> bool) (t rest : str) :
  (3 <= length t)%nat -> forallb p t = true -> stops p rest ->
  takes (AtLeast3 (Cls p)) t rest (fun c => c).
Proof.
  intros Hlen Ht Hstop.
  destruct t as [|x [|y [|z t]]]; simpl in Hlen; try lia.
  simpl in Ht. repeat (apply andb_true_iff in Ht as [? Ht]).
  apply (takes_seq (Cls p) _ [x] (y :: z :: t) rest (fun c => c) (fun c => c));
    [apply takes_cls; assumption|].
  apply (takes_seq (Cls p) _ [y] (z :: t) rest (fun c => c) (fun c => c));
    [apply takes_cls; assumption|].
  apply (takes_seq (Cls p) _ [z] t rest (fun c => c) (fun c => c));
    [apply takes_cls; assumption|].
  apply takes_star_cls; trivial.
Qed.

Lemma takes_number (num rest : str) :
  is_number num -> stops (fun y => (is_digit y || N.eqb 46 y)%bool) rest ->
  takes NUMBER num rest (fun c => c).
Proof.
  intros (ip & Hip & Hnum) Hstop.
  assert (Sd : stops is_digit rest).
  { destruct rest as [|y rest]; simpl in *; trivial.
    apply orb_false_iff in Hstop. tauto. }
  unfold NUMBER, Opt, DIGIT, DOT. destruct Hnum as [->|(fp & Hfp & ->)].
  - rewrite <- (app_nil_r ip).
    apply (takes_seq _ _ ip [] rest (fun c => c) (fun c => c)).
    + apply takes_plus_cls; trivial.
    + intros c k m Hk. simpl. destruct rest as [|y rest]; trivial.
      simpl in Hstop. apply orb_false_iff in Hstop as [_ Hy]. rewrite Hy.
      exact Hk.
  - apply (takes_seq _ _ ip (46%N :: fp) rest (fun c => c) (fun c => c)).
    + apply takes_plus_cls; trivial. reflexivity.
    + apply takes_alt_l.
      apply (takes_seq _ _ [46%N] fp rest (fun c => c) (fun c => c)).
      * apply takes_cls. reflexivity.
      * apply takes_plus_cls; trivial.
Qed.

Lemma takes_to_in (kw rest : str) :
  is_to_in kw -> takes TO_IN kw rest (fun c => c).
Proof.
  intros (x & y & -> & H) c k m Hk. unfold TO_IN. simpl.
  destruct (is_lit_ic 116%N x) eqn:T; [destruct (is_lit_ic 111%N y) eqn:O|].
  - rewrite Hk. reflexivity.
  - destruct H as [[_ H]|[Hi Hn]]; [congruence|]. rewrite Hi, Hn. exact Hk.
  - destruct H as [[H _]|[Hi Hn]]; [congruence|]. rewrite Hi, Hn. exact Hk.
Qed.

Lemma isspace_spec (y : char) :
  isspace y = true <->
  ((9 <= y <= 13) \/ (28 <= y <= 32) \/ y = 133 \/ y = 160 \/ y = 5760
   \/ (8192 <= y <= 8202) \/ y = 8232 \/ y = 8233 \/ y = 8239 \/ y = 8287
   \/ y = 12288)%N.
Proof.
  unfold isspace, in_range.
  rewrite !orb_true_iff, !andb_true_iff, !N.leb_le, !N.eqb_eq. tauto.
Qed.

Lemma is_letter_ic_spec (y : char) :
  is_letter_ic y = true <->
  ((65 <= y <= 90) \/ (97 <= y <= 122) \/ y = 304 \/ y = 305 \/ y = 383
   \/ y = 8490)%N.
Proof.
  unfold is_letter_ic, is_AZ, is_az, in_range, I_DOT, DOTLESS_I, LONG_S, KELVIN.
  rewrite !orb_true_iff, !andb_true_iff, !N.leb_le, !N.eqb_eq. tauto.
Qed.

Lemma is_digit_spec (y : char) : is_digit y = true <-> (48 <= y <= 57)%N.
Proof.
  unfold is_digit, in_range. rewrite andb_true_iff, !N.leb_le. tauto.
Qed.

Lemma isspace_not_letter (y : char) :
  isspace y = true ->
  is_letter_ic y = false /\ is_digit y = false /\ N.eqb 46 y = false.
Proof.
  intros H. apply isspace_spec in H. repeat split.
  - destruct (is_letter_ic y) eqn:E; trivial.
    apply is_letter_ic_spec in E. lia.
  - destruct (is_digit y) eqn:E; trivial. apply is_digit_spec in E. lia.
  - apply N.eqb_neq. lia.
Qed.

Lemma letter_not_space (y : char) :
  is_letter_ic y = true ->
  isspace y = false /\ is_digit y = false /\ N.eqb 46 y = false.
Proof.
  intros H. apply is_letter_ic_spec in H. repeat split.
  - destruct (isspace y) eqn:E; trivial. apply isspace_spec in E. lia.
  - destruct (is_digit y) eqn:E; trivial. apply is_digit_spec in E. lia.
  - apply N.eqb_neq. lia.
Qed.

Lemma lit_ic_not_space (l y : char) :
  (l = 116 \/ l = 105)%N -> is_lit_ic l y = true -> isspace y = false.
Proof.
  unfold is_lit_ic, I_DOT, DOTLESS_I. intros Hl H.
  repeat rewrite ?orb_true_iff, ?andb_true_iff, ?N.eqb_eq in H.
  destruct (isspace y) eqn:E; trivial. apply isspace_spec in E. exfalso.
  destruct Hl as [-> | ->];
    [change (116 - 32)%N with 84%N in H|change (105 - 32)%N with 73%N in H];
    lia.
Qed.

Lemma token_head (t : str) :
  is_token t -> exists y t', t = y :: t' /\ is_letter_ic y = true.
Proof.
  intros [Hlen Ht]. destruct t as [|y t']; [simpl in Hlen; lia|].
  simpl in Ht. apply andb_true_iff in Ht as [Hy _]. eauto.
Qed.

(** On a phrase whose white space after the first token is not empty and
    whose second token is not followed by a letter, the pattern takes the
    number and the two tokens whole. *)
Lemma takes_pattern (num ws1 a ws2 kw ws3 b post : str) :
  is_number num -> is_spaces ws1 -> is_token a ->
  is_spaces ws2 -> ws2 <> [] -> is_to_in kw -> is_spaces ws3 ->
  is_token b -> stops is_letter_ic post ->
  takes PATTERN (num ++ ws1 ++ a ++ ws2 ++ kw ++ ws3 ++ b) post
        (fun c => (3%nat, b) :: (2%nat, a) :: (1%nat, num) :: c).
Proof.
  intros Hn H1 Ha H2 Hne Hk H3 Hb Hpost.
  destruct (token_head a Ha) as (ya & ta & Ea & Hya).
  destruct (token_head b Hb) as (yb & tb & Eb & Hyb).
  destruct (letter_not_space ya Hya) as (Sa & Da & Pa).
  destruct (letter_not_space yb Hyb) as (Sb & _ & _).
  destruct Ha as [La Fa]. destruct Hb as [Lb Fb].
  unfold PATTERN.
  apply (takes_seq (Group 1 NUMBER) _ num _ post
           (fun c => (1%nat, num) :: c)
           (fun c => (3%nat, b) :: (2%nat, a) :: c)).
  { apply (takes_group 1 NUMBER num _ (fun c => c)).
    apply takes_number; trivial.
    destruct ws1 as [|y ws1].
    - rewrite Ea. unfold stops. cbn [Datatypes.app]. rewrite Da, Pa.
      reflexivity.
    - unfold is_spaces in H1. cbn [forallb] in H1.
      apply andb_true_iff in H1 as [Hy _].
      destruct (isspace_not_letter y Hy) as (_ & Dy & Py).
      unfold stops. cbn [Datatypes.app]. rewrite Dy, Py. reflexivity. }
  apply (takes_seq SPACES _ ws1 _ post (fun c => c)
           (fun c => (3%nat, b) :: (2%nat, a) :: c)).
  { apply takes_star_cls; trivial. rewrite Ea. exact Sa. }
  apply (takes_seq (Group 2 _) _ a _ post (fun c => (2%nat, a) :: c)
           (fun c => (3%nat, b) :: c)).
  { apply (takes_group 2 _ a _ (fun c => c)). apply takes_alt_l.
    apply takes_atleast3; trivial.
    destruct ws2 as [|y ws2]; [congruence|]. simpl.
    simpl in H2. apply andb_true_iff in H2 as [Hy _].
    apply (isspace_not_letter y Hy). }
  apply (takes_seq SPACES _ ws2 _ post (fun c => c) (fun c => (3%nat, b) :: c)).
  { apply takes_star_cls; trivial.
    destruct Hk as (x & y & -> & [[Hx _]|[Hx _]]); simpl;
      [apply (lit_ic_not_space 116%N)|apply (lit_ic_not_space 105%N)]; auto. }
  apply (takes_seq TO_IN _ kw _ post (fun c => c) (fun c => (3%nat, b) :: c)).
  { apply takes_to_in, Hk. }
  apply (takes_seq SPACES _ ws3 b post (fun c => c) (fun c => (3%nat, b) :: c)).
  { apply takes_star_cls; trivial. rewrite Eb. exact Sb. }
  apply (takes_group 3 _ b post (fun c => c)).
  apply takes_atleast3; trivial.
Qed.

Lemma search_skip_nondigits (pre r : str) (m : caps) :
  forallb (fun x => negb (is_digit x)) pre = true ->
  rmatch PATTERN r [] (fun _ c => Some c) = Some m ->
  search PATTERN (pre ++ r) = Some m.
Proof.
  intros Hpre Hm. induction pre as [|x pre IH].
  - destruct r; simpl; simpl in Hm; rewrite Hm; reflexivity.
  - simpl in Hpre. apply andb_true_iff in Hpre as [Hx Hpre].
    apply negb_true_iff in Hx.
    change (search PATTERN ((x :: pre) ++ r))
      with (match rmatch PATTERN (x :: pre ++ r) [] (fun _ c => Some c) with
            | Some c => Some c
            | None => search PATTERN (pre ++ r)
            end).
    replace (rmatch PATTERN (x :: pre ++ r) [] (fun _ c => Some c))
      with (@None caps) by (simpl; rewrite Hx; reflexivity).
    auto.
Qed.

(** The parser on a phrase that starts at the first digit of the text. *)
Lemma parse_phrase (text pre num ws1 a ws2 kw ws3 b post : str) :
  strip text = pre ++ num ++ ws1 ++ a ++ ws2 ++ kw ++ ws3 ++ b ++ post ->
  forallb (fun x => negb (is_digit x)) pre = true ->
  is_number num -> is_spaces ws1 -> is_token a ->
  is_spaces ws2 -> ws2 <> [] -> is_to_in kw -> is_spaces ws3 ->
  is_token b -> stops is_letter_ic post ->
  parse_nl_input text = resolve num a b.
Proof.
  intros Hs Hpre Hn H1 Ha H2 Hne Hk H3 Hb Hpost.
  pose proof (takes_pattern num ws1 a ws2 kw ws3 b post
                Hn H1 Ha H2 Hne Hk H3 Hb Hpost [] (fun _ c => Some c) _ eq_refl)
    as Hm.
  unfold parse_nl_input. rewrite Hs.
  replace (num ++ ws1 ++ a ++ ws2 ++ kw ++ ws3 ++ b ++ post)
    with ((num ++ ws1 ++ a ++ ws2 ++ kw ++ ws3 ++ b) ++ post)
    by (repeat rewrite <- app_assoc; reflexivity).
  rewrite (search_skip_nondigits pre _ _ Hpre Hm). reflexivity.
Qed.

(** X6.  When the stripped text reads: characters without a digit, then a
    number, optional white space, a token of three or more letters, white
    space, [to] or [in], optional white space, a token of three or more
    letters that no letter follows, the parser works on exactly that number
    and these two tokens, whatever comes before and after. *)
Theorem parse_nl_input_phrase (text pre num ws1 a ws2 kw ws3 b post : str) :
  strip text = pre ++ num ++ ws1 ++ a ++ ws2 ++ kw ++ ws3 ++ b ++ post ->
  forallb (fun x => negb (is_digit x)) pre = true ->
  is_number num -> is_spaces ws1 -> is_token a ->
  is_spaces ws2 -> ws2 <> [] -> is_to_in kw -> is_spaces ws3 ->
  is_token b -> stops is_letter_ic post ->
  parse_nl_input text = resolve num a b /\
  exists amt, float num = Ok amt /\
    (forall ca cb,
       word_to_currency_code (upper a) = Some ca ->
       word_to_currency_code (upper b) = Some cb ->
       parse_nl_input text = Ok (amt, ca, cb)).
Proof.
  intros Hs Hpre Hn H1 Ha H2 Hne Hk H3 Hb Hpost.
  pose proof (parse_phrase text pre num ws1 a ws2 kw ws3 b post
                Hs Hpre Hn H1 Ha H2 Hne Hk H3 Hb Hpost) as Hp.
  split; trivial. destruct (float_number num Hn) as (q & Hq & _).
  exists q. split; trivial. intros ca cb Hca Hcb.
  rewrite Hp. unfold resolve. rewrite Hq, Hca, Hcb. reflexivity.
Qed.

Lemma parse_nl_input_phrase_witness :
  parse_nl_input (lit "please convert 12.50 Dollars  to yen, thanks")
  = resolve (lit "12.50") (lit "Dollars") (lit "yen").
Proof.
  refine (proj1 (parse_nl_input_phrase
                   (lit "please convert 12.50 Dollars  to yen, thanks")
                   (lit "please convert ") (lit "12.50") (lit " ")
                   (lit "Dollars") (lit "  ") (lit "to") (lit " ") (lit "yen")
                   (lit ", thanks") eq_refl eq_refl _ eq_refl _ eq_refl _ _
                   eq_refl _ eq_refl)).
  - exists (lit "12"). split; [reflexivity|].
    right. exists (lit "50"). split; reflexivity.
  - split; [simpl; lia|reflexivity].
  - discriminate.
  - exists 116%N, 111%N. split; [reflexivity|]. left. split; reflexivity.
  - split; [simpl; lia|reflexivity].
Defined.

(** X7.  A token of exactly three ASCII letters always resolves: to the
    code the dictionary gives its upper case, and otherwise to its upper
    case itself, whether or not such a currency exists. *)
Theorem word_to_currency_code_three_letters (t : str) :
  length t = 3%nat ->
  forallb (fun x => (is_AZ x || is_az x)%bool) t = true ->
  word_to_currency_code t
  = Some (match dict_get (upper t) COMMON_CURY with
          | Some code => code
          | None => upper t
          end).
Proof.
  intros Hlen Ht.
  assert (HAZ : forallb is_AZ (upper t) = true).
  { unfold upper. rewrite forallb_forall in *. intros y Hy.
    apply in_map_iff in Hy as (x & <- & Hx). specialize (Ht x Hx).
    apply upper_char_AZ.
    - unfold is_letter_ic. rewrite <- !orb_assoc.
      apply orb_true_iff in Ht as [H|H]; rewrite H; simpl;
        rewrite ?orb_true_r; reflexivity.
    - unfold is_AZ, is_az, in_range, I_DOT in *. intros ->. discriminate.
    - unfold is_AZ, is_az, in_range, KELVIN in *. intros ->. discriminate. }
  unfold word_to_currency_code.
  rewrite (filter_all _ _ _ HAZ).
  destruct (dict_get (upper t) COMMON_CURY); trivial.
  unfold upper. rewrite length_map, Hlen. reflexivity.
Qed.

Lemma word_to_currency_code_three_letters_witness :
  word_to_currency_code (lit "xyz") = Some (lit "XYZ").
Proof.
  exact (word_to_currency_code_three_letters (lit "xyz") eq_refl eq_refl).
Defined.

(** ** The provider calls: further properties *)

Lemma get_json_pending (r : request) (w : world) :
  pending (snd (get_json r w)) = tl (pending w).
Proof.
  unfold get_json, requests_get.
  destruct (pending w) as [|[e|status [j|]] rest]; simpl;
    try destruct (is_error_status status); reflexivity.
Qed.

(** The body of each of the three calls sends its one request and takes
    one answer of the provider. *)
Lemma provider_bodies_send_once (amount : Q) (base target : str) (w : world) :
  (sent (snd (fetch_symbols w)) = sent w ++ [symbols_request] /\
   pending (snd (fetch_symbols w)) = tl (pending w)) /\
  (sent (snd (fetch_latest base w)) = sent w ++ [latest_request base] /\
   pending (snd (fetch_latest base w)) = tl (pending w)) /\
  (sent (snd (convert_currency amount base target w))
   = sent w ++ [convert_request amount base target] /\
   pending (snd (convert_currency amount base target w)) = tl (pending w)).
Proof.
  unfold fetch_symbols, fetch_latest, convert_currency, symbols_request,
    latest_request, convert_request.
  repeat split;
    match goal with
    | |- context [get_json ?r w] =>
        pose proof (get_json_sent r w) as Hs;
        pose proof (get_json_pending r w) as Hp;
        destruct (get_json r w) as [[j|e] w']; cbn [snd] in *;
        try destruct j; assumption
    end.
Qed.

(** X8.  A call of [fetch_symbols] or of [fetch_latest], as decorated,
    leaves the provider alone when its entry is cached and younger than
    its time-to-live, and otherwise sends exactly one request, whatever
    the provider answers: the GET of its endpoint with its parameters and
    a timeout of 10 seconds, one answer of the provider is consumed, and
    a failure is never followed by a second try.  [convert_currency],
    which is not decorated, sends exactly one request at every call. *)
Theorem provider_calls_send_once
        (now : Z) (amount : Q) (base target : str) (a : app) :
  ((forall e, cache_find unit_eqb tt (symbols_cache a) = Some e ->
              now - fetched_at e < 900 ->
              net (snd (cached_fetch_symbols now a)) = net a) /\
   (cache_find unit_eqb tt (symbols_cache a) = None \/
    (exists e, cache_find unit_eqb tt (symbols_cache a) = Some e /\
               900 <= now - fetched_at e) ->
    sent (net (snd (cached_fetch_symbols now a)))
    = sent (net a) ++ [symbols_request] /\
    pending (net (snd (cached_fetch_symbols now a))) = tl (pending (net a)))) /\
  ((forall e, cache_find str_eqb base (latest_cache a) = Some e ->
              now - fetched_at e < 300 ->
              net (snd (cached_fetch_latest now base a)) = net a) /\
   (cache_find str_eqb base (latest_cache a) = None \/
    (exists e, cache_find str_eqb base (latest_cache a) = Some e /\
               300 <= now - fetched_at e) ->
    sent (net (snd (cached_fetch_latest now base a)))
    = sent (net a) ++ [latest_request base] /\
    pending (net (snd (cached_fetch_latest now base a))) = tl (pending (net a)))) /\
  (sent (snd (convert_currency amount base target (net a)))
   = sent (net a) ++ [convert_request amount base target] /\
   pending (snd (convert_currency amount base target (net a)))
   = tl (pending (net a))).
Proof.
  destruct (provider_bodies_send_once amount base target (net a))
    as (Hs & Hl & Hc).
  split; [|split; [|exact Hc]]; split.
  - intros e Hf Hage. unfold cached_fetch_symbols.
    rewrite (cache_data_hit _ _ unit_eqb TTL_SYMBOLS (fun _ => fetch_symbols)
               now tt _ (net a) e Hf Hage). reflexivity.
  - intros Hm. unfold cached_fetch_symbols.
    rewrite (cache_data_miss _ _ unit_eqb TTL_SYMBOLS (fun _ => fetch_symbols)
               now tt _ (net a) Hm).
    destruct (fetch_symbols (net a)) as [[v|x] w']; exact Hs.
  - intros e Hf Hage. unfold cached_fetch_latest.
    rewrite (cache_data_hit _ _ str_eqb TTL_LATEST fetch_latest
               now base _ (net a) e Hf Hage). reflexivity.
  - intros Hm. unfold cached_fetch_latest.
    rewrite (cache_data_miss _ _ str_eqb TTL_LATEST fetch_latest
               now base _ (net a) Hm).
    destruct (fetch_latest base (net a)) as [[v|x] w']; exact Hl.
Qed.

Lemma provider_calls_send_once_witness :
  let rates := JObj [(lit "EUR", JNum (9 # 10))] in
  let a := mkApp [] [(lit "USD", mkEntry rates 1000)] []
                 (mkWorld [Response 200 (Some (JObj [(lit "rates", rates)]))] []) in
  net (snd (cached_fetch_latest 1299 (lit "USD") a)) = net a /\
  sent (net (snd (cached_fetch_latest 1300 (lit "USD") a)))
  = sent (net a) ++ [latest_request (lit "USD")].
Proof.
  intros rates a. split.
  - apply (proj1 (proj1 (proj2 (provider_calls_send_once 1299 1 (lit "USD")
                                  (lit "EUR") a)))
             (mkEntry rates 1000)); [reflexivity|cbn [fetched_at]; lia].
  - apply (proj1 (proj2 (provider_calls_send_once 1300 1 (lit "USD")
                           (lit "EUR") a))).
    right. exists (mkEntry rates 1000). split; [reflexivity|cbn [fetched_at]; lia].
Defined.

(** X9.  The three fetchers let the failure of their HTTP step out as it
    is: the exception of the transport, the [HTTPError] of a 4xx or 5xx
    status whatever the body, the [JSONDecodeError] of a body that is not
    JSON; and a JSON body that is not an object raises [AttributeError]. *)
Theorem fetchers_propagate_failures
        (base target start_date end_date : str) (sd ed : date) (w : world) :
  fromisoformat start_date = Ok sd ->
  fromisoformat end_date = Ok ed ->
  forall e,
    ((exists rest, pending w = NetFail e :: rest) \/
     (exists status body rest, pending w = Response status body :: rest /\
        is_error_status status = true /\ e = HTTPError status) \/
     (exists status rest, pending w = Response status None :: rest /\
        is_error_status status = false /\ e = JSONDecodeError) \/
     (exists status j rest, pending w = Response status (Some j) :: rest /\
        is_error_status status = false /\
        (forall o, j <> JObj o) /\ e = AttributeError)) ->
    raises (fst (fetch_symbols w)) e /\
    raises (fst (fetch_latest base w)) e /\
    raises (fst (fetch_timeseries base target start_date end_date w)) e.
Proof.
  intros Hsd Hed e H. unfold raises, fetch_symbols, fetch_latest, fetch_timeseries.
  rewrite Hsd, Hed. unfold get_json, requests_get.
  destruct H as [(rest & Hp)|[(status & body & rest & Hp & Hs & ->)|
                 [(status & rest & Hp & Hs & ->)|
                  (status & j & rest & Hp & Hs & Hj & ->)]]];
    rewrite Hp; try rewrite Hs; auto.
  destruct j; try (repeat split; reflexivity).
  exfalso. eapply Hj. reflexivity.
Qed.

Lemma fetchers_propagate_failures_witness :
  let w := mkWorld [Response 503 (Some (JObj []))] [] in
  raises (fst (fetch_symbols w)) (HTTPError 503) /\
  raises (fst (fetch_latest (lit "USD") w)) (HTTPError 503) /\
  raises (fst (fetch_timeseries (lit "USD") (lit "EUR")
                 (lit "2024-01-01") (lit "2024-01-31") w)) (HTTPError 503).
Proof.
  intros w.
  apply (fetchers_propagate_failures (lit "USD") (lit "EUR")
           (lit "2024-01-01") (lit "2024-01-31") 738886 738916 w
           eq_refl eq_refl).
  right. left. exists 503, (Some (JObj [])), []. repeat split.
Defined.

Lemma fromisoformat_raises (s : str) (e : exn) :
  fromisoformat s = Raise e -> exists msg, e = ValueError msg.
Proof.
  unfold fromisoformat.
  destruct s as [|y1 [|y2 [|y3 [|y4 [|h1 [|m1 [|m2 [|h2 [|d1 [|d2 [|]]]]]]]]]]];
    try (intros [= <-]; eauto).
  destruct (_ && _ && _)%bool; [|intros [= <-]; eauto].
  match goal with |- (if ?c then _ else _) = _ -> _ => destruct c end;
    [discriminate|intros [= <-]; eauto].
Qed.

(** With no entry to serve, the decorated [fetch_timeseries] returns what
    its body returns on the provider, and stores nothing when that is a
    failure. *)
Lemma cached_fetch_timeseries_expired
      (now : Z) (base target start_date end_date : str) (a : app) :
  expired TTL_TIMESERIES now
    (cache_find ts_key_eqb (base, target, start_date, end_date)
       (timeseries_cache a)) = true ->
  fst (cached_fetch_timeseries now base target start_date end_date a)
  = fst (fetch_timeseries base target start_date end_date (net a)) /\
  (forall e,
     fst (fetch_timeseries base target start_date end_date (net a)) = Raise e ->
     timeseries_cache
       (snd (cached_fetch_timeseries now base target start_date end_date a))
     = timeseries_cache a).
Proof.
  intros Hx. unfold cached_fetch_timeseries, cache_data.
  destruct (cache_find ts_key_eqb (base, target, start_date, end_date)
              (timeseries_cache a)) as [en|]; cbn [expired] in Hx;
    [destruct (now - fetched_at en <? TTL_TIMESERIES); [discriminate|]|];
    destruct (fetch_timeseries base target start_date end_date (net a))
      as [[v|x] w']; cbn [fst snd timeseries_cache]; split; trivial;
    intros e0 [=].
Qed.

(** X10.  A start or end date of the form [dddd-dd-dd] that is no calendar
    date (month 13, 30 February, year 0) makes [fetch_timeseries] raise a
    [ValueError] before anything is sent: the provider is not called, and
    the decorated function, at a lookup that has no entry to serve, raises
    the same and stores nothing. *)
Theorem fetch_timeseries_rejects_bad_date
        (base target start_date end_date : str) (e : exn) :
  iso_shaped start_date = true -> iso_shaped end_date = true ->
  fromisoformat start_date = Raise e \/
  ((exists sd, fromisoformat start_date = Ok sd) /\
   fromisoformat end_date = Raise e) ->
  (exists msg, e = ValueError msg) /\
  (forall w, fetch_timeseries base target start_date end_date w = (Raise e, w)) /\
  (forall now a,
     expired TTL_TIMESERIES now
       (cache_find ts_key_eqb (base, target, start_date, end_date)
          (timeseries_cache a)) = true ->
     cached_fetch_timeseries now base target start_date end_date a
     = (Raise e, a)).
Proof.
  intros _ _ H.
  assert (F : forall w,
             fetch_timeseries base target start_date end_date w = (Raise e, w)).
  { intros w. unfold fetch_timeseries.
    destruct H as [H|[(sd & Hsd) H]]; [rewrite H|rewrite Hsd, H]; reflexivity. }
  split; [|split; [exact F|]].
  - destruct H as [H|[_ H]]; exact (fromisoformat_raises _ _ H).
  - intros now a Hx. unfold cached_fetch_timeseries, cache_data.
    destruct (cache_find ts_key_eqb (base, target, start_date, end_date)
                (timeseries_cache a)) as [en|]; cbn [expired] in Hx;
      [destruct (now - fetched_at en <? TTL_TIMESERIES); [discriminate|]|];
      rewrite F; destruct a; reflexivity.
Qed.

Lemma fetch_timeseries_rejects_bad_date_witness :
  fetch_timeseries (lit "USD") (lit "EUR") (lit "2023-02-29") (lit "2023-03-31")
    (mkWorld [Response 200 (Some (JObj []))] [])
  = (Raise (ValueError DATE_MSG), mkWorld [Response 200 (Some (JObj []))] []).
Proof.
  exact (proj1 (proj2 (fetch_timeseries_rejects_bad_date
                         (lit "USD") (lit "EUR") (lit "2023-02-29")
                         (lit "2023-03-31") (ValueError DATE_MSG)
                         eq_refl eq_refl (or_introl eq_refl)))
           (mkWorld [Response 200 (Some (JObj []))] [])).
Defined.

Lemma build_records_bad_row (target : str) (items : list (str * json))
      (d : str) (v : json) :
  In (d, v) items -> (forall o, v <> JObj o) ->
  build_records target items = Raise AttributeError.
Proof.
  intros Hin Hv. induction items as [|[d' v'] items IH]; [contradiction|].
  simpl. destruct Hin as [[= -> ->]|Hin].
  - destruct v; try reflexivity. exfalso. eapply Hv. reflexivity.
  - destruct v'; try reflexivity. rewrite (IH Hin). reflexivity.
Qed.

(** X11.  A time-series body whose [rates] is present but is not an
    object, or holds under some date a value that is not an object (a
    [null], a number), makes the body of [fetch_timeseries] raise
    [AttributeError]: no partial frame is returned.  So does the decorated
    function at a lookup that has no entry to serve, and it stores
    nothing. *)
Theorem fetch_timeseries_malformed_rates
        (base target start_date end_date : str) (sd ed : date) (a : app)
        (status : Z) (body : list (str * json)) (rates : json)
        (rest : list outcome) :
  fromisoformat start_date = Ok sd ->
  fromisoformat end_date = Ok ed ->
  pending (net a) = Response status (Some (JObj body)) :: rest ->
  is_error_status status = false ->
  dict_get (lit "rates") body = Some rates ->
  (forall o, rates <> JObj o) \/
  (exists o d v, rates = JObj o /\ In (d, v) o /\ forall r, v <> JObj r) ->
  fst (fetch_timeseries base target start_date end_date (net a))
  = Raise AttributeError /\
  (forall now,
     expired TTL_TIMESERIES now
       (cache_find ts_key_eqb (base, target, start_date, end_date)
          (timeseries_cache a)) = true ->
     fst (cached_fetch_timeseries now base target start_date end_date a)
     = Raise AttributeError /\
     timeseries_cache
       (snd (cached_fetch_timeseries now base target start_date end_date a))
     = timeseries_cache a).
Proof.
  intros Hsd Hed Hp Hs Hr H.
  assert (F : fst (fetch_timeseries base target start_date end_date (net a))
              = Raise AttributeError).
  { unfold fetch_timeseries. rewrite Hsd, Hed. cbv zeta.
    rewrite (get_json_object _ (net a) _ _ _ Hp Hs). unfold json_get. rewrite Hr.
    destruct H as [H|(o & d & v & -> & Hin & Hv)].
    - destruct rates; try reflexivity. exfalso. eapply H. reflexivity.
    - rewrite (build_records_bad_row target (sorted_items o) d v); trivial.
      apply (Permutation_in _ (Permutation_sym (sorted_items_perm _ o))), Hin. }
  split; [exact F|]. intros now Hx.
  destruct (cached_fetch_timeseries_expired now base target start_date end_date
              a Hx) as [E1 E2].
  split; [rewrite E1; exact F|exact (E2 _ F)].
Qed.

Lemma fetch_timeseries_malformed_rates_witness :
  let rates := JObj [(lit "2024-01-02", JObj [(lit "EUR", JNum (1 # 1))]);
                     (lit "2024-01-03", JNull)] in
  let a := mkApp [] [] []
             (mkWorld [Response 200 (Some (JObj [(lit "rates", rates)]))] []) in
  fst (cached_fetch_timeseries 0 (lit "USD") (lit "EUR")
         (lit "2024-01-01") (lit "2024-01-31") a) = Raise AttributeError.
Proof.
  intros rates a.
  refine (proj1 (proj2 (fetch_timeseries_malformed_rates (lit "USD") (lit "EUR")
           (lit "2024-01-01") (lit "2024-01-31") 738886 738916 a 200
           [(lit "rates", rates)] rates [] eq_refl eq_refl eq_refl eq_refl
           eq_refl _) 0 eq_refl)).
  right. eexists _, (lit "2024-01-03"), JNull.
  split; [reflexivity|]. split; [simpl; auto|discriminate].
Defined.

(** The frame [fetch_timeseries] returns on a well-formed response. *)
Lemma fetch_timeseries_value
      (base target start_date end_date : str) (sd ed : date) (w : world)
      (status : Z) (body rates : list (str * json)) (rest : list outcome) :
  fromisoformat start_date = Ok sd ->
  fromisoformat end_date = Ok ed ->
  pending w = Response status (Some (JObj body)) :: rest ->
  is_error_status status = false ->
  dict_get (lit "rates") body = Some (JObj rates) ->
  Forall is_rate_row rates ->
  fst (fetch_timeseries base target start_date end_date w)
  = Ok (map (row_point target) (sorted_items rates)).
Proof.
  intros Hsd Hed Hp Hs Hr Hrows.
  assert (Hrows' : Forall is_rate_row (sorted_items rates)).
  { apply (Permutation_Forall (Permutation_sym (sorted_items_perm _ rates))).
    exact Hrows. }
  destruct (build_to_datetime target _ Hrows') as (recs & Hb & Ht).
  unfold fetch_timeseries. rewrite Hsd, Hed.
  rewrite (get_json_object _ w _ _ _ Hp Hs). unfold json_get. rewrite Hr, Hb.
  exact Ht.
Qed.

Lemma strict_sorted_perm_eq (A : Type) (key : A -> Z) (l1 l2 : list A) :
  StronglySorted Z.lt (map key l1) -> StronglySorted Z.lt (map key l2) ->
  Permutation l1 l2 -> l1 = l2.
Proof.
  revert l2. induction l1 as [|x t1 IH]; intros l2 S1 S2 P.
  - apply Permutation_nil in P. auto.
  - destruct l2 as [|y t2].
    { apply Permutation_sym, Permutation_nil in P. discriminate. }
    simpl in S1, S2. inversion_clear S1 as [|? ? S1' F1].
    inversion_clear S2 as [|? ? S2' F2].
    rewrite Forall_forall in F1, F2.
    assert (Hx : In x (y :: t2)) by (apply (Permutation_in _ P); simpl; auto).
    assert (Hy : In y (x :: t1))
      by (apply (Permutation_in _ (Permutation_sym P)); simpl; auto).
    assert (E : x = y).
    { destruct Hx as [Hx|Hx]; [auto|]. destruct Hy as [Hy|Hy]; [auto|].
      pose proof (F2 _ (in_map key _ _ Hx)).
      pose proof (F1 _ (in_map key _ _ Hy)). lia. }
    subst y. f_equal. apply IH; trivial.
    apply (Permutation_cons_inv P).
Qed.

(** X12.  The frame does not depend on the order in which the provider
    lists the dates: two well-formed responses whose [rates] objects hold
    the same entries in different orders give the same frame, from the
    body of [fetch_timeseries] and from the decorated function at lookups
    that have no entry to serve. *)
Theorem fetch_timeseries_key_order
        (base target start_date end_date : str) (sd ed : date)
        (a1 a2 : app) (status1 status2 : Z)
        (body1 body2 rates1 rates2 : list (str * json))
        (rest1 rest2 : list outcome) :
  fromisoformat start_date = Ok sd ->
  fromisoformat end_date = Ok ed ->
  pending (net a1) = Response status1 (Some (JObj body1)) :: rest1 ->
  pending (net a2) = Response status2 (Some (JObj body2)) :: rest2 ->
  is_error_status status1 = false -> is_error_status status2 = false ->
  dict_get (lit "rates") body1 = Some (JObj rates1) ->
  dict_get (lit "rates") body2 = Some (JObj rates2) ->
  NoDup (map fst rates1) -> Forall is_rate_row rates1 ->
  Permutation rates1 rates2 ->
  fst (fetch_timeseries base target start_date end_date (net a1))
  = fst (fetch_timeseries base target start_date end_date (net a2)) /\
  (forall now1 now2,
     expired TTL_TIMESERIES now1
       (cache_find ts_key_eqb (base, target, start_date, end_date)
          (timeseries_cache a1)) = true ->
     expired TTL_TIMESERIES now2
       (cache_find ts_key_eqb (base, target, start_date, end_date)
          (timeseries_cache a2)) = true ->
     fst (cached_fetch_timeseries now1 base target start_date end_date a1)
     = fst (cached_fetch_timeseries now2 base target start_date end_date a2)).
Proof.
  intros Hsd Hed Hp1 Hp2 Hs1 Hs2 Hr1 Hr2 Hnd Hrows P.
  assert (Hrows2 : Forall is_rate_row rates2)
    by (apply (Permutation_Forall P); exact Hrows).
  assert (Hnd2 : NoDup (map fst rates2))
    by (apply (Permutation_NoDup (Permutation_map fst P)); exact Hnd).
  assert (F : fst (fetch_timeseries base target start_date end_date (net a1))
              = fst (fetch_timeseries base target start_date end_date (net a2))).
  { rewrite (fetch_timeseries_value base target start_date end_date sd ed (net a1)
               status1 body1 rates1 rest1),
            (fetch_timeseries_value base target start_date end_date sd ed (net a2)
               status2 body2 rates2 rest2); trivial.
    f_equal. apply (strict_sorted_perm_eq point pt_date).
    - apply Sorted_StronglySorted; [exact Z.lt_trans|].
      apply sorted_points; trivial.
      + apply sorted_items_sorted.
      + apply (Permutation_NoDup (l := map fst rates1)); trivial.
        apply Permutation_map, Permutation_sym, sorted_items_perm.
      + apply (Permutation_Forall (Permutation_sym (sorted_items_perm _ rates1))).
        exact Hrows.
    - apply Sorted_StronglySorted; [exact Z.lt_trans|].
      apply sorted_points; trivial.
      + apply sorted_items_sorted.
      + apply (Permutation_NoDup (l := map fst rates2)); trivial.
        apply Permutation_map, Permutation_sym, sorted_items_perm.
      + apply (Permutation_Forall (Permutation_sym (sorted_items_perm _ rates2))).
        exact Hrows2.
    - apply Permutation_map.
      apply (Permutation_trans (sorted_items_perm _ rates1)).
      apply (Permutation_trans P).
      apply Permutation_sym, sorted_items_perm. }
  split; [exact F|]. intros now1 now2 X1 X2.
  rewrite (proj1 (cached_fetch_timeseries_expired now1 base target start_date
                    end_date a1 X1)),
          (proj1 (cached_fetch_timeseries_expired now2 base target start_date
                    end_date a2 X2)).
  exact F.
Qed.

Lemma fetch_timeseries_key_order_witness :
  let r1 := (lit "2024-01-02", JObj [(lit "EUR", JNum (1 # 1))]) in
  let r2 := (lit "2023-12-31", JObj []) in
  let a1 := mkApp [] [] []
              (mkWorld [Response 200 (Some (JObj [(lit "rates", JObj [r1; r2])]))] []) in
  let a2 := mkApp [] [] []
              (mkWorld [Response 200 (Some (JObj [(lit "rates", JObj [r2; r1])]))] []) in
  fst (cached_fetch_timeseries 0 (lit "USD") (lit "EUR")
         (lit "2023-12-30") (lit "2024-01-05") a1)
  = fst (cached_fetch_timeseries 5 (lit "USD") (lit "EUR")
           (lit "2023-12-30") (lit "2024-01-05") a2).
Proof.
  intros r1 r2 a1 a2.
  refine (proj2 (fetch_timeseries_key_order (lit "USD") (lit "EUR")
           (lit "2023-12-30") (lit "2024-01-05") 738884 738890 a1 a2 200 200
           [(lit "rates", JObj [r1; r2])] [(lit "rates", JObj [r2; r1])]
           [r1; r2] [r2; r1] [] [] eq_refl eq_refl eq_refl eq_refl eq_refl
           eq_refl eq_refl eq_refl _ _ _) 0 5 eq_refl eq_refl).
  - repeat constructor; simpl; intuition discriminate.
  - repeat constructor; simpl; eauto.
  - apply perm_swap.
Defined.

(** ** The charts and the conversion block *)

Lemma history_days_values (days_history : string) :
  history_days days_history = 7 \/ history_days days_history = 30 \/
  history_days days_history = 90.
Proof.
  unfold history_days.
  destruct (String.eqb days_history "7 days"); auto.
  destruct (String.eqb days_history "30 days"); auto.
Qed.



Lemma is_not_none_some (v : json) :
  is_not_none (Some v) = true <-> v <> JNull.
Proof. destruct v; simpl; split; congruence. Qed.

Lemma top10_rows_spec (codes : list str) (o s : list (str * json)) :
  Forall (fun e => exists d, e = JObj d) (map snd s) ->
  exists rows,
    top10_rows codes (JObj o) (JObj s) = Ok rows /\
    map bar_currency rows
    = filter (fun c => is_not_none (dict_get c o)) codes /\
    Forall (fun r => dict_get (bar_currency r) o = Some (bar_rate r) /\
                     bar_rate r <> JNull /\
                     (dict_get (bar_currency r) s = None ->
                      bar_name r = JStr [])) rows.
Proof.
  intros Hs. rewrite Forall_forall in Hs.
  induction codes as [|code codes (rows & Hr & Hc & Hf)].
  - exists []. simpl. auto.
  - cbn [top10_rows filter].
    destruct (dict_get code o) as [v|] eqn:Ev; [|eauto].
    destruct (is_not_none (Some v)) eqn:Hv; [|eauto].
    apply is_not_none_some in Hv.
    unfold json_get.
    destruct (dict_get code s) as [entry|] eqn:Es.
    + destruct (Hs entry (dict_get_in _ _ _ _ Es)) as (d & ->).
      rewrite Hr.
      destruct (dict_get (lit "description") d) as [nm|] eqn:Ed.
      * exists (mkBarRow code v nm :: rows). split; [reflexivity|].
        simpl. rewrite Hc. split; [reflexivity|].
        constructor; trivial. simpl. repeat split; trivial. congruence.
      * exists (mkBarRow code v (JStr []) :: rows). split; [reflexivity|].
        simpl. rewrite Hc. split; [reflexivity|].
        constructor; trivial. simpl. repeat split; trivial.
    + rewrite Hr.
      exists (mkBarRow code v (JStr []) :: rows). split; [reflexivity|].
      simpl. rewrite Hc. split; [reflexivity|].
      constructor; trivial. simpl. repeat split; trivial.
Qed.

Lemma NoDup_filter (A : Type) (p : A -> bool) (l : list A) :
  NoDup l -> NoDup (filter p l).
Proof.
  induction 1 as [|x l Hx Hl IH]; simpl; [constructor|].
  destruct (p x); trivial. constructor; trivial.
  intros H. apply filter_In in H. tauto.
Qed.

Lemma filter_length_le (A : Type) (p : A -> bool) (l : list A) :
  (length (filter p l) <= length l)%nat.
Proof.
  induction l as [|x l IH]; simpl; [lia|]. destruct (p x); simpl; lia.
Qed.

(** X14.  With a rates object and a symbol table whose entries are
    objects, the frame of the bar chart has one row for each code of
    [TOP_10] whose rate is present and not null, in the order of [TOP_10]:
    at most ten rows, no code twice, each with the rate of its code, and
    with an empty name when the symbol table lacks the code. *)
Theorem top10_rows_are_the_rated_codes (o s : list (str * json)) :
  Forall (fun e => exists d, e = JObj d) (map snd s) ->
  exists rows,
    top10_rows TOP_10 (JObj o) (JObj s) = Ok rows /\
    map bar_currency rows
    = filter (fun c => is_not_none (dict_get c o)) TOP_10 /\
    (length rows <= 10)%nat /\ NoDup (map bar_currency rows) /\
    Forall (fun r => dict_get (bar_currency r) o = Some (bar_rate r) /\
                     bar_rate r <> JNull /\
                     (dict_get (bar_currency r) s = None ->
                      bar_name r = JStr [])) rows.
Proof.
  intros Hs. destruct (top10_rows_spec TOP_10 o s Hs) as (rows & Hr & Hc & Hf).
  exists rows. repeat split; trivial.
  - rewrite <- (length_map bar_currency), Hc.
    apply (filter_length_le _ _ TOP_10).
  - rewrite Hc. apply NoDup_filter.
    repeat constructor; simpl; intuition discriminate.
Qed.

Lemma top10_rows_are_the_rated_codes_witness :
  exists rows,
    top10_rows TOP_10
      (JObj [(lit "EUR", JNum (9 # 10)); (lit "XAU", JNum (1 # 2000));
             (lit "JPY", JNull); (lit "USD", JNum (1 # 1))])
      (JObj [(lit "EUR", JObj [(lit "description", JStr (lit "Euro"))])])
    = Ok rows /\
    map bar_currency rows = [lit "USD"; lit "EUR"].
Proof.
  destruct (top10_rows_are_the_rated_codes
              [(lit "EUR", JNum (9 # 10)); (lit "XAU", JNum (1 # 2000));
               (lit "JPY", JNull); (lit "USD", JNum (1 # 1))]
              [(lit "EUR", JObj [(lit "description", JStr (lit "Euro"))])])
    as (rows & H1 & H2 & _).
  - simpl. constructor; [eexists; reflexivity|constructor].
  - exists rows. split; [exact H1|exact H2].
Defined.

Lemma truthy_is_not_none (v : option json) :
  truthy v = true -> is_not_none v = true.
Proof. destruct v as [[]|]; simpl; congruence. Qed.

Lemma pie_rows_spec (codes : list str) (o : list (str * json)) :
  exists rows,
    pie_rows codes (JObj o) = Ok rows /\
    map fst rows = filter (fun c => truthy (dict_get c o)) codes /\
    Forall (fun r => dict_get (fst r) o = Some (snd r)) rows.
Proof.
  induction codes as [|code codes (rows & Hr & Hc & Hf)].
  - exists []. simpl. auto.
  - cbn [pie_rows filter].
    destruct (dict_get code o) as [v|] eqn:Ev; [|eauto].
    destruct (truthy (Some v)) eqn:Hv; [|eauto].
    rewrite Hr. exists ((code, v) :: rows). split; [reflexivity|].
    simpl. rewrite Hc. split; [reflexivity|]. constructor; trivial.
Qed.

(** X15.  The frame of the pie chart has one row for each code of [TOP_10]
    whose rate is true in [if v:], so every code of the pie chart is a code
    of the bar chart; a code whose rate is the number zero is in the bar
    chart and not in the pie chart. *)
Theorem pie_rows_within_bar_rows (o : list (str * json)) :
  exists pie,
    pie_rows TOP_10 (JObj o) = Ok pie /\
    map fst pie = filter (fun c => truthy (dict_get c o)) TOP_10 /\
    Forall (fun r => dict_get (fst r) o = Some (snd r)) pie /\
    incl (map fst pie) (filter (fun c => is_not_none (dict_get c o)) TOP_10) /\
    (forall c q, In c TOP_10 -> dict_get c o = Some (JNum q) -> Qnum q = 0 ->
       In c (filter (fun c => is_not_none (dict_get c o)) TOP_10) /\
       ~ In c (map fst pie)).
Proof.
  destruct (pie_rows_spec TOP_10 o) as (pie & Hr & Hc & Hf).
  exists pie. split; [exact Hr|]. split; [exact Hc|]. split; [exact Hf|].
  split; [|intros c q Hin Hq Hz; split].
  - rewrite Hc. intros c Hin. apply filter_In in Hin as [Hin Ht].
    apply filter_In. split; trivial. apply truthy_is_not_none, Ht.
  - apply filter_In. split; trivial. rewrite Hq. reflexivity.
  - rewrite Hc. intros Hc'. apply filter_In in Hc' as [_ Ht].
    rewrite Hq in Ht. simpl in Ht. rewrite Hz in Ht. discriminate.
Qed.

Lemma cached_fetch_latest_expired (now : Z) (base : str) (a : app) :
  expired TTL_LATEST now (cache_find str_eqb base (latest_cache a)) = true ->
  cached_fetch_latest now base a
  = match fetch_latest base (net a) with
    | (Ok v, w') =>
        (Ok v, mkApp (symbols_cache a) ((base, mkEntry v now) :: latest_cache a)
                     (timeseries_cache a) w')
    | (Raise e, w') =>
        (Raise e, mkApp (symbols_cache a) (latest_cache a)
                        (timeseries_cache a) w')
    end.
Proof.
  intros Hx. unfold cached_fetch_latest, cache_data.
  destruct (cache_find str_eqb base (latest_cache a)) as [en|];
    cbn [expired] in Hx;
    [destruct (now - fetched_at en <? TTL_LATEST); [discriminate|]|];
    destruct (fetch_latest base (net a)) as [[v|e] w']; reflexivity.
Qed.

Lemma cached_fetch_latest_fresh (now t : Z) (base : str) (v : json) (a : app)
      (c : store str json) :
  latest_cache a = (base, mkEntry v t) :: c ->
  now - t < 300 ->
  cached_fetch_latest now base a = (Ok v, a).
Proof.
  intros Hc Hage. unfold cached_fetch_latest, cache_data. rewrite Hc.
  cbn [cache_find]. rewrite str_eqb_refl. cbn [fetched_at value].
  replace (now - t <? TTL_LATEST) with true
    by (symmetry; apply Z.ltb_lt; unfold TTL_LATEST; lia).
  destruct a; simpl in *; subst; reflexivity.
Qed.

(** X16.  When the latest rates have no entry to serve and the provider's
    body lacks [rates], the bar chart block sends the one [/latest]
    request and shows "No rates available to plot for top currencies.";
    the empty mapping is cached, so the pie chart block, run less than
    300 s later in any state that kept that cache, shows nothing and
    sends nothing. *)
Theorem charts_without_rates (now : Z) (base : str) (symbols : json) (a : app)
        (status : Z) (o : list (str * json)) (rest : list outcome) :
  expired TTL_LATEST now (cache_find str_eqb base (latest_cache a)) = true ->
  pending (net a) = Response status (Some (JObj o)) :: rest ->
  is_error_status status = false ->
  dict_get (lit "rates") o = None ->
  let (r1, a1) := plot_top10_rates now base symbols a in
  r1 = Ok [InfoW "No rates available to plot for top currencies." None] /\
  sent (net a1) = sent (net a) ++ [latest_request base] /\
  (forall now2 a',
     latest_cache a' = latest_cache a1 -> now2 - now < 300 ->
     plot_pie_distribution now2 base a' = (Ok [], a')).
Proof.
  intros Hx Hp Hs Hk.
  assert (F : fetch_latest base (net a)
              = (Ok (JObj []), mkWorld rest (sent (net a) ++ [latest_request base]))).
  { unfold fetch_latest. rewrite (get_json_object _ (net a) _ _ _ Hp Hs).
    unfold json_get. rewrite Hk. reflexivity. }
  unfold plot_top10_rates. rewrite (cached_fetch_latest_expired now base a Hx), F.
  change (top10_rows TOP_10 (JObj []) symbols) with (@Ok (list bar_row) []).
  cbv beta iota. split; [reflexivity|]. split; [reflexivity|].
  intros now2 a' Hc Hage. cbn [latest_cache] in Hc.
  unfold plot_pie_distribution.
  rewrite (cached_fetch_latest_fresh now2 now base (JObj []) a' _ Hc Hage).
  reflexivity.
Qed.

Lemma charts_without_rates_witness :
  let a := mkApp [] [] [] (mkWorld [Response 200 (Some (JObj []))] []) in
  let a1 := snd (plot_top10_rates 0 (lit "USD") JNull a) in
  fst (plot_top10_rates 0 (lit "USD") JNull a)
  = Ok [InfoW "No rates available to plot for top currencies." None] /\
  plot_pie_distribution 299 (lit "USD") a1 = (Ok [], a1).
Proof.
  intros a a1.
  destruct (charts_without_rates 0 (lit "USD") JNull a 200 [] []
              eq_refl eq_refl eq_refl eq_refl) as (H1 & _ & H3).
  split; [exact H1|]. apply H3; [reflexivity|lia].
Defined.

(** X17.  When the latest rates have no entry to serve and the provider's
    [rates] is not an object (a [null], a list), the bar chart block sends
    the one [/latest] request and raises [AttributeError], which the
    script shows as its error message; the value is cached all the same,
    so the pie chart block, run less than 300 s later in any state that
    kept that cache, fails the same way without a request. *)
Theorem charts_with_malformed_rates (now : Z) (base : str) (symbols : json)
        (a : app) (status : Z) (o : list (str * json)) (v : json)
        (rest : list outcome) :
  expired TTL_LATEST now (cache_find str_eqb base (latest_cache a)) = true ->
  pending (net a) = Response status (Some (JObj o)) :: rest ->
  is_error_status status = false ->
  dict_get (lit "rates") o = Some v ->
  (forall r, v <> JObj r) ->
  let (r1, a1) := plot_top10_rates now base symbols a in
  guarded "Failed to load top-10 chart: " r1
    = [ErrorW "Failed to load top-10 chart: " (Caught AttributeError)] /\
  sent (net a1) = sent (net a) ++ [latest_request base] /\
  (forall now2 a',
     latest_cache a' = latest_cache a1 -> now2 - now < 300 ->
     guarded "Pie chart failed: " (fst (plot_pie_distribution now2 base a'))
       = [ErrorW "Pie chart failed: " (Caught AttributeError)] /\
     snd (plot_pie_distribution now2 base a') = a').
Proof.
  intros Hx Hp Hs Hk Hv.
  assert (F : fetch_latest base (net a)
              = (Ok v, mkWorld rest (sent (net a) ++ [latest_request base]))).
  { unfold fetch_latest. rewrite (get_json_object _ (net a) _ _ _ Hp Hs).
    unfold json_get. rewrite Hk. reflexivity. }
  assert (T : top10_rows TOP_10 v symbols = Raise AttributeError).
  { destruct v; try reflexivity. exfalso. eapply Hv. reflexivity. }
  assert (P : pie_rows TOP_10 v = Raise AttributeError).
  { destruct v; try reflexivity. exfalso. eapply Hv. reflexivity. }
  unfold plot_top10_rates. rewrite (cached_fetch_latest_expired now base a Hx), F.
  rewrite T. cbv beta iota. split; [reflexivity|]. split; [reflexivity|].
  intros now2 a' Hc Hage. cbn [latest_cache] in Hc.
  unfold plot_pie_distribution.
  rewrite (cached_fetch_latest_fresh now2 now base v a' _ Hc Hage), P.
  split; reflexivity.
Qed.

Lemma charts_with_malformed_rates_witness :
  let a := mkApp [] [] []
             (mkWorld [Response 200 (Some (JObj [(lit "rates", JNull)]))] []) in
  let a1 := snd (plot_top10_rates 0 (lit "USD") (JObj []) a) in
  guarded "Failed to load top-10 chart: "
    (fst (plot_top10_rates 0 (lit "USD") (JObj []) a))
    = [ErrorW "Failed to load top-10 chart: " (Caught AttributeError)] /\
  guarded "Pie chart failed: " (fst (plot_pie_distribution 299 (lit "USD") a1))
    = [ErrorW "Pie chart failed: " (Caught AttributeError)].
Proof.
  intros a a1.
  destruct (charts_with_malformed_rates 0 (lit "USD") (JObj []) a
              200 [(lit "rates", JNull)] JNull [] eq_refl eq_refl eq_refl
              eq_refl ltac:(discriminate)) as (H1 & _ & H3).
  split; [exact H1|]. apply H3; [reflexivity|lia].
Defined.

Lemma convert_currency_sent (amount : Q) (base target : str) (w : world) :
  sent (snd (convert_currency amount base target w))
  = sent w ++ [convert_request amount base target].
Proof.
  unfold convert_currency, convert_request.
  match goal with |- context [get_json ?r w] =>
    pose proof (get_json_sent r w) as Hs;
    destruct (get_json r w) as [[j|e] w']
  end; cbn [snd] in *; try destruct j; exact Hs.
Qed.

Lemma convert_block_sent (amount : Q) (base target : str) (w : world) :
  sent (snd (convert_block amount base target w))
  = sent w ++ [convert_request amount base target].
Proof.
  unfold convert_block. rewrite <- convert_currency_sent.
  destruct (convert_currency amount base target w) as [[[[v|] meta]|e] w'];
    cbn [snd]; trivial.
  destruct (formats_2f (Some v)); trivial. destruct meta; reflexivity.
Qed.

Lemma preview_block_sent (amount : Q) (base target : str) (w : world) :
  sent (snd (preview_block amount base target w))
  = sent w ++ [convert_request amount base target].
Proof.
  unfold preview_block. rewrite <- convert_currency_sent.
  destruct (convert_currency amount base target w) as [[[[v|] meta]|e] w'];
    cbn [snd]; trivial.
  destruct (formats_2f (Some v)); reflexivity.
Qed.

(** X18.  Conversions are not cached: every run of the script sends one
    [/convert] request for the quick preview, and a run in which "Convert"
    was pressed sends the same request twice, once for the button and once
    for the preview. *)
Theorem convert_section_requests (convert_btn : bool) (amount : Q)
        (base target : str) (w : world) :
  sent (snd (convert_section convert_btn amount base target w))
  = sent w ++ (if convert_btn
               then [convert_request amount base target;
                     convert_request amount base target]
               else [convert_request amount base target]).
Proof.
  unfold convert_section. destruct convert_btn.
  - pose proof (convert_block_sent amount base target w) as H1.
    destruct (convert_block amount base target w) as [ws1 w1]. cbn [snd] in H1.
    pose proof (preview_block_sent amount base target w1) as H2.
    destruct (preview_block amount base target w1) as [ws2 w2].
    cbn [snd] in *. rewrite H2, H1, <- app_assoc. reflexivity.
  - pose proof (preview_block_sent amount base target w) as H2.
    destruct (preview_block amount base target w) as [ws2 w2]. exact H2.
Qed.



(** X20.  The time-series cache is keyed by the dates as they are passed,
    before the clamp: two lookups whose start dates differ but both lie
    more than 365 days before the same end date are two entries, so the
    second lookup sends once more the very request the first one sent. *)
Theorem timeseries_cache_keyed_before_clamp
        (now1 now2 : Z) (base target start1 start2 end_date : str)
        (sd1 sd2 ed : date) (a : app) :
  fromisoformat start1 = Ok sd1 -> fromisoformat start2 = Ok sd2 ->
  fromisoformat end_date = Ok ed ->
  365 < ed - sd1 -> 365 < ed - sd2 ->
  str_eqb start2 start1 = false ->
  timeseries_cache a = [] ->
  let a1 := snd (cached_fetch_timeseries now1 base target start1 end_date a) in
  let a2 := snd (cached_fetch_timeseries now2 base target start2 end_date a1) in
  let r := timeseries_request base target (strftime (ed - 365)) end_date in
  sent (net a1) = sent (net a) ++ [r] /\
  sent (net a2) = sent (net a) ++ [r; r].
Proof.
  intros H1 H2 He L1 L2 Hne Hc.
  set (a1 := snd (cached_fetch_timeseries now1 base target start1 end_date a)).
  cbv zeta.
  assert (A1 : sent (net a1)
               = sent (net a)
                 ++ [timeseries_request base target (strftime (ed - 365)) end_date]
               /\ cache_find ts_key_eqb (base, target, start2, end_date)
                    (timeseries_cache a1) = None).
  { pose proof (fetch_timeseries_sent base target start1 end_date sd1 ed (net a)
                  H1 He) as S1.
    unfold MAX_HISTORY_DAYS in S1.
    replace (365 <? ed - sd1) with true in S1 by (symmetry; apply Z.ltb_lt; lia).
    subst a1. unfold cached_fetch_timeseries, cache_data. rewrite Hc.
    cbn [cache_find].
    destruct (fetch_timeseries base target start1 end_date (net a))
      as [[v|e] w1]; cbn [snd] in S1; cbn [snd net timeseries_cache];
      (split; [exact S1|]); [|reflexivity].
    cbn [cache_find ts_key_eqb]. rewrite Hne, !andb_false_r. reflexivity. }
  clearbody a1. destruct A1 as [S1 C1]. split; [exact S1|].
  pose proof (fetch_timeseries_sent base target start2 end_date sd2 ed (net a1)
                H2 He) as S2.
  unfold MAX_HISTORY_DAYS in S2.
  replace (365 <? ed - sd2) with true in S2 by (symmetry; apply Z.ltb_lt; lia).
  unfold cached_fetch_timeseries, cache_data. rewrite C1.
  destruct (fetch_timeseries base target start2 end_date (net a1))
    as [[v2|e2] w2]; cbn [snd net] in *; rewrite S2, S1, <- app_assoc;
    reflexivity.
Qed.

Lemma timeseries_cache_keyed_before_clamp_witness :
  let a := mkApp [] [] [] (mkWorld [] []) in
  let a1 := snd (cached_fetch_timeseries 0 (lit "USD") (lit "EUR")
                   (lit "2020-01-01") (lit "2024-03-01") a) in
  let a2 := snd (cached_fetch_timeseries 1 (lit "USD") (lit "EUR")
                   (lit "2021-01-01") (lit "2024-03-01") a1) in
  let r := timeseries_request (lit "USD") (lit "EUR")
             (strftime (738946 - 365)) (lit "2024-03-01") in
  sent (net a1) = sent (net a) ++ [r] /\
  sent (net a2) = sent (net a) ++ [r; r].
Proof.
  exact (timeseries_cache_keyed_before_clamp 0 1 (lit "USD") (lit "EUR")
           (lit "2020-01-01") (lit "2021-01-01") (lit "2024-03-01")
           737425 737791 738946 (mkApp [] [] [] (mkWorld [] []))
           eq_refl eq_refl eq_refl ltac:(lia) ltac:(lia) eq_refl eq_refl).
Defined.

(** X21.  At a lookup that has no entry to serve, the historical block
    shows "No historical data to show." when the provider's body lacks
    [rates] (the frame is empty), and "Could not fetch historical data"
    with the [HTTPError] when the provider answers with a 4xx or 5xx
    status. *)
Theorem history_block_outcome (now : Z) (today : date) (days_history : string)
        (base target : str) (a : app) (status : Z) (body : option json)
        (rest : list outcome) :
  MIN_4DIGIT_ORDINAL + 90 <= today <= MAX_ORDINAL ->
  expired TTL_TIMESERIES now
    (cache_find ts_key_eqb
       (base, target, strftime (today - history_days days_history),
        strftime today)
       (timeseries_cache a)) = true ->
  pending (net a) = Response status body :: rest ->
  (is_error_status status = true ->
   fst (history_block now today days_history base target a)
   = [ErrorW "Could not fetch historical data: " (Caught (HTTPError status))]) /\
  (is_error_status status = false ->
   forall o, body = Some (JObj o) -> dict_get (lit "rates") o = None ->
   fst (history_block now today days_history base target a)
   = [InfoW "No historical data to show." None]).
Proof.
  intros Ht Hc Hp. pose proof (history_days_values days_history) as Hd.
  unfold history_block, cached_fetch_timeseries, cache_data. cbv zeta.
  destruct (cache_find ts_key_eqb _ (timeseries_cache a)) as [en|];
    cbn [expired] in Hc;
    [destruct (now - fetched_at en <? TTL_TIMESERIES); [discriminate|]|];
    unfold fetch_timeseries;
    rewrite !strftime_fromisoformat
      by (unfold MAX_ORDINAL, MIN_4DIGIT_ORDINAL in *; lia);
    unfold get_json, requests_get; rewrite Hp; (split;
    [ intros Hs; rewrite Hs; reflexivity
    | intros Hs o -> Hk; rewrite Hs; unfold json_get; rewrite Hk; reflexivity ]).
Qed.

Lemma history_block_outcome_witness :
  fst (history_block 0 739000 "7 days" (lit "USD") (lit "EUR")
         (mkApp [] [] [] (mkWorld [Response 429 None] [])))
  = [ErrorW "Could not fetch historical data: " (Caught (HTTPError 429))].
Proof.
  exact (proj1 (history_block_outcome 0 739000 "7 days" (lit "USD") (lit "EUR")
                  (mkApp [] [] [] (mkWorld [Response 429 None] [])) 429 None []
                  ltac:(unfold MAX_ORDINAL, MIN_4DIGIT_ORDINAL; lia) eq_refl eq_refl) eq_refl).
Defined.
